(** * synonymsWithDatamuse.py

    A shallow embedding of the function [group_synonyms] and its local
    helper [substitute_synonyms]: the file is read, every line is turned
    into a list of words, lines sharing a word are merged by repeated
    passes until a pass changes nothing, and the result is written back.
    Then the rest of the file: [DatamuseService.get_synonyms],
    [normalize], and the two scripts guarded by [GET_SYNONYMS] and
    [GROUP_SYNONYMS]. *)

From Stdlib Require Import Ascii String.
From stdpp Require Import base list gmap strings.

(** ** Text

    A Python [str] holds any Unicode character: it is a sequence of code
    points. *)
Abbreviation text := (list N).

(** A [str] literal of the source, written with ASCII characters. *)
Definition str (s : string) : text := map N_of_ascii (list_ascii_of_string s).

(** [str.isspace] (and the [\s] of a [str] regular expression). *)
Definition py_isspace (c : N) : bool :=
  ((9 <=? c) && (c <=? 13))%N || ((28 <=? c) && (c <=? 32))%N ||
  (c =? 133)%N || (c =? 160)%N || (c =? 5760)%N ||
  ((8192 <=? c) && (c <=? 8202))%N || (c =? 8232)%N || (c =? 8233)%N ||
  (c =? 8239)%N || (c =? 8287)%N || (c =? 12288)%N.

(** [str.lstrip()], [str.rstrip()], [str.strip()] without argument. *)
Fixpoint py_lstrip (t : text) : text :=
  match t with
  | [] => []
  | c :: r => if py_isspace c then py_lstrip r else t
  end.

Definition py_rstrip (t : text) : text := reverse (py_lstrip (reverse t)).

Definition py_strip (t : text) : text := py_rstrip (py_lstrip t).

(** [str.split()] without argument: the maximal runs of non-whitespace. *)
Fixpoint py_split_ws (t : text) : list text :=
  match t with
  | [] => []
  | c :: r =>
      if py_isspace c then py_split_ws r
      else match r with
           | d :: _ =>
               if py_isspace d then [c] :: py_split_ws r
               else match py_split_ws r with
                    | w :: ws => (c :: w) :: ws
                    | [] => [[c]]
                    end
           | [] => [[c]]
           end
  end.

(** [str.split(sep)] with a one-character separator. *)
Fixpoint py_split_on (sep : N) (t : text) : list text :=
  match t with
  | [] => [[]]
  | c :: r =>
      if (c =? sep)%N then [] :: py_split_on sep r
      else match py_split_on sep r with
           | w :: ws => (c :: w) :: ws
           | [] => [[c]]
           end
  end.

(** [sep.join(words)] *)
Fixpoint py_join (sep : text) (ws : list text) : text :=
  match ws with
  | [] => []
  | [w] => w
  | w :: ws' => w ++ sep ++ py_join sep ws'
  end.

(** [s.startswith(prefix)], [s.endswith(suffix)] and [s.removesuffix(suffix)]. *)
Definition py_startswith (t prefix : text) : bool :=
  bool_decide (prefix `prefix_of` t).

Definition py_endswith (t suffix : text) : bool :=
  bool_decide (suffix `suffix_of` t).

Definition py_removesuffix (t suffix : text) : text :=
  if bool_decide (suffix `suffix_of` t) && negb (bool_decide (suffix = []))
  then take (length t - length suffix) t else t.

(** [file.readlines()] of a file opened in text mode: ["\r\n"] and ["\r"]
    are read as ["\n"], every line keeps its ["\n"], the last one may lack
    it. *)
Fixpoint translate_newlines_t (t : text) : text :=
  match t with
  | [] => []
  | c :: r =>
      if (c =? 13)%N then
        match r with
        | d :: r' => if (d =? 10)%N then 10%N :: translate_newlines_t r'
                     else 10%N :: translate_newlines_t r
        | [] => [10%N]
        end
      else c :: translate_newlines_t r
  end.

Fixpoint split_lines_t (t : text) : list text :=
  match t with
  | [] => []
  | c :: r =>
      if (c =? 10)%N then [c] :: split_lines_t r
      else match split_lines_t r with
           | l :: ls => (c :: l) :: ls
           | [] => [[c]]
           end
  end.

Definition readlines_t (t : text) : list text := split_lines_t (translate_newlines_t t).

(** [str.lower()] is a parameter of the functions that call it: its
    Unicode case mapping is left abstract.  On text made of ASCII
    characters it changes exactly the letters A-Z, as [ascii_str_lower]
    does. *)
Definition ascii_str_lower (t : text) : text :=
  map (λ c, if (65 <=? c)%N && (c <=? 90)%N then (c + 32)%N else c) t.

Definition ascii_text (t : text) : Prop := Forall (λ c, (c < 128)%N) t.

Definition agrees_on_ascii (str_lower : text → text) : Prop :=
  ∀ t, ascii_text t → str_lower t = ascii_str_lower t.

(** Two facts of [str.lower()]: it brings in no line break ["\n"] or
    ["\r"] that was not there, and it never gives an upper-case ASCII
    letter. *)
Definition lower_keeps_line_ends (str_lower : text → text) : Prop :=
  ∀ t c, c ∈ str_lower t → (c = 10 ∨ c = 13)%N → c ∈ t.

Definition lower_no_upper (str_lower : text → text) : Prop :=
  ∀ t c, c ∈ str_lower t → ¬ (65 ≤ c ≤ 90)%N.

(** *** Lemmas on text *)

Lemma py_lstrip_app (v w : text) :
  py_lstrip (v ++ w) = match py_lstrip v with [] => py_lstrip w | _ => py_lstrip v ++ w end.
Proof. induction v as [|c v IH]; simpl; [done|]. by destruct (py_isspace c). Qed.

(** [str.strip()] keeps a factor of its argument. *)
Lemma py_lstrip_suffix (v : text) : ∃ k, v = k ++ py_lstrip v.
Proof.
  induction v as [|c v IH]; [by exists []|]. simpl.
  destruct (py_isspace c); [|by exists []].
  destruct IH as [k Hk]. exists (c :: k). simpl. by rewrite <- Hk.
Qed.

Lemma py_rstrip_prefix (v : text) : ∃ k, v = py_rstrip v ++ k.
Proof.
  destruct (py_lstrip_suffix (reverse v)) as [k Hk]. exists (reverse k).
  unfold py_rstrip. rewrite <- reverse_app, <- Hk. by rewrite reverse_involutive.
Qed.

Lemma py_strip_chars (t : text) c : c ∈ py_strip t → c ∈ t.
Proof.
  intros Hc. destruct (py_lstrip_suffix t) as [k1 Hk1].
  destruct (py_rstrip_prefix (py_lstrip t)) as [k2 Hk2].
  rewrite Hk1, Hk2. apply elem_of_app. right. apply elem_of_app. by left.
Qed.

Lemma py_lstrip_head (v : text) c :
  head (py_lstrip v) = Some c → py_isspace c = false.
Proof.
  induction v as [|d v IH]; simpl; [done|].
  destruct (py_isspace d) eqn:E; [done|]. simpl. intros [= <-]. done.
Qed.

Lemma py_lstrip_id (t : text) :
  (∀ c, c ∈ t → py_isspace c = false) → py_lstrip t = t.
Proof. destruct t as [|c t]; intros Ht; [done|]. simpl. by rewrite (Ht c) by left. Qed.

Lemma py_strip_id (t : text) :
  (∀ c, c ∈ t → py_isspace c = false) → py_strip t = t.
Proof.
  intros Ht. unfold py_strip, py_rstrip. rewrite (py_lstrip_id t Ht), py_lstrip_id.
  - apply reverse_involutive.
  - intros c Hc. apply Ht. apply elem_of_reverse. exact Hc.
Qed.

(** A final line end is stripped away. *)
Lemma py_strip_newline (body : text) : py_strip (body ++ [10%N]) = py_strip body.
Proof.
  unfold py_strip. rewrite py_lstrip_app.
  destruct (py_lstrip body) as [|c r] eqn:E; [reflexivity|].
  unfold py_rstrip. rewrite reverse_app. reflexivity.
Qed.

Lemma py_split_on_chars sep (t w : text) c :
  w ∈ py_split_on sep t → c ∈ w → c ∈ t ∧ c ≠ sep.
Proof.
  revert w. induction t as [|d t IH]; simpl; intros w Hw Hc.
  - apply list_elem_of_singleton in Hw as ->. by apply not_elem_of_nil in Hc.
  - destruct (N.eqb_spec d sep) as [->|Hd].
    + apply elem_of_cons in Hw as [->|Hw]; [by apply not_elem_of_nil in Hc|].
      destruct (IH w Hw Hc). split; [by right|done].
    + destruct (py_split_on sep t) as [|w0 ws] eqn:Hs.
      * apply list_elem_of_singleton in Hw as ->.
        apply list_elem_of_singleton in Hc as ->. split; [left|done].
      * apply elem_of_cons in Hw as [->|Hw].
        -- apply elem_of_cons in Hc as [->|Hc]; [split; [left|done]|].
           destruct (IH w0 ltac:(left) Hc). split; [by right|done].
        -- destruct (IH w ltac:(by right) Hc). split; [by right|done].
Qed.

Lemma py_split_on_no_sep sep (x : text) : sep ∉ x → py_split_on sep x = [x].
Proof.
  induction x as [|c x IH]; intros Hx; [done|]. simpl.
  destruct (N.eqb_spec c sep) as [->|Hc]; [exfalso; apply Hx; left|].
  rewrite IH; [done|]. intros H. apply Hx. by right.
Qed.

Lemma py_split_on_app_sep sep (x y : text) :
  sep ∉ x → py_split_on sep (x ++ sep :: y) = x :: py_split_on sep y.
Proof.
  induction x as [|c x IH]; intros Hx; simpl.
  - by rewrite N.eqb_refl.
  - destruct (N.eqb_spec c sep) as [->|Hc]; [exfalso; apply Hx; left|].
    rewrite IH; [done|]. intros H. apply Hx. by right.
Qed.

Lemma py_split_join sep (l : list text) :
  l ≠ [] → (∀ w, w ∈ l → sep ∉ w) → py_split_on sep (py_join [sep] l) = l.
Proof.
  induction l as [|w l IH]; intros Hne Hl; [done|].
  destruct l as [|w2 l]; [apply py_split_on_no_sep, Hl; left|].
  change (py_join [sep] (w :: w2 :: l)) with (w ++ [sep] ++ py_join [sep] (w2 :: l)).
  change ([sep] ++ py_join [sep] (w2 :: l)) with (sep :: py_join [sep] (w2 :: l)).
  rewrite py_split_on_app_sep, IH; [done|done| |apply Hl; left].
  intros w' Hw'. apply Hl. by right.
Qed.

Lemma py_join_chars sep (l : list text) c :
  c ∈ py_join [sep] l → c = sep ∨ ∃ w, w ∈ l ∧ c ∈ w.
Proof.
  induction l as [|w l IH]; [by intros ?%not_elem_of_nil|].
  destruct l as [|w2 l].
  - intros Hc. right. exists w. split; [left|done].
  - change (py_join [sep] (w :: w2 :: l)) with (w ++ sep :: py_join [sep] (w2 :: l)).
    intros [Hc|[->|Hc]%elem_of_cons]%elem_of_app.
    + right. exists w. split; [left|done].
    + by left.
    + destruct (IH Hc) as [->|(w' & Hw' & Hc')]; [by left|].
      right. exists w'. split; [by right|done].
Qed.

Lemma translate_newlines_chars (t : text) c :
  c ∈ translate_newlines_t t → c ≠ 13%N ∧ (c ∈ t ∨ c = 10%N).
Proof.
  remember (length t) as n eqn:Hn. revert t Hn.
  induction n as [n IH] using lt_wf_ind. intros [|d r] Hn; simpl.
  { by intros ?%not_elem_of_nil. }
  simpl in Hn.
  destruct (N.eqb_spec d 13) as [->|Hd].
  - destruct r as [|e r'].
    + intros ->%list_elem_of_singleton. split; [done|by right].
    + destruct (N.eqb_spec e 10) as [->|He].
      * intros [->|Hc]%elem_of_cons; [split; [done|by right]|].
        simpl in Hn. destruct (IH (length r') ltac:(lia) r' eq_refl Hc) as [? [?|?]].
        -- split; [done|]. left. by right; right.
        -- split; [done|by right].
      * intros [->|Hc]%elem_of_cons; [split; [done|by right]|].
        destruct (IH (length (e :: r')) ltac:(lia) (e :: r') eq_refl Hc) as [? [?|?]].
        -- split; [done|]. left. by right.
        -- split; [done|by right].
  - intros [->|Hc]%elem_of_cons; [split; [done|left; left]|].
    destruct (IH (length r) ltac:(lia) r eq_refl Hc) as [? [?|?]].
    + split; [done|]. left. by right.
    + split; [done|by right].
Qed.

Lemma translate_newlines_id (t : text) : 13%N ∉ t → translate_newlines_t t = t.
Proof.
  induction t as [|c t IH]; intros Ht; [done|]. simpl.
  destruct (N.eqb_spec c 13) as [->|Hc]; [exfalso; apply Ht; left|].
  rewrite IH; [done|]. intros H. apply Ht. by right.
Qed.

(** The lines read from a text without ["\r"]: a body without line end,
    followed by ["\n"] except maybe for the last one. *)
Lemma split_lines_shape (t : text) :
  ∀ l, l ∈ split_lines_t t → ∃ body, (∀ c, c ∈ body → c ∈ t ∧ c ≠ 10%N) ∧
    (l = body ++ [10%N] ∨ l = body).
Proof.
  induction t as [|c t IH]; simpl; intros l Hl.
  - by apply not_elem_of_nil in Hl.
  - destruct (N.eqb_spec c 10) as [->|Hc].
    + apply elem_of_cons in Hl as [->|Hl].
      * exists []. split; [by intros ? ?%not_elem_of_nil|by left].
      * destruct (IH l Hl) as (body & Hb & Hlb). exists body.
        split; [|done]. intros d Hd. destruct (Hb d Hd). split; [by right|done].
    + destruct (split_lines_t t) as [|l0 ls] eqn:Hsl.
      * apply list_elem_of_singleton in Hl as ->.
        exists [c]. split; [|by right].
        intros d ->%list_elem_of_singleton. split; [left|done].
      * apply elem_of_cons in Hl as [->|Hl].
        -- destruct (IH l0 ltac:(left)) as (body & Hb & Hl0).
           exists (c :: body). split.
           ++ intros d [->|Hd]%elem_of_cons; [split; [left|done]|].
              destruct (Hb d Hd). split; [by right|done].
           ++ destruct Hl0 as [->| ->]; [by left|by right].
        -- destruct (IH l ltac:(by right)) as (body & Hb & Hlb). exists body.
           split; [|done]. intros d Hd. destruct (Hb d Hd). split; [by right|done].
Qed.

Lemma readlines_shape (t l : text) :
  l ∈ readlines_t t → ∃ body, (∀ c, c ∈ body → c ≠ 13%N ∧ c ≠ 10%N ∧ c ∈ t) ∧
    (l = body ++ [10%N] ∨ l = body).
Proof.
  intros Hl. destruct (split_lines_shape _ l Hl) as (body & Hb & Hlb).
  exists body. split; [|done]. intros c Hc. destruct (Hb c Hc) as [Hc' H10].
  apply translate_newlines_chars in Hc' as [H13 [Hin|Heq]]; [|done].
  split_and!; done.
Qed.

Lemma split_lines_app_newline (x y : text) :
  10%N ∉ x → split_lines_t (x ++ 10%N :: y) = (x ++ [10%N]) :: split_lines_t y.
Proof.
  induction x as [|c x IH]; intros Hx; [done|]. simpl.
  destruct (N.eqb_spec c 10) as [->|Hc]; [exfalso; apply Hx; left|].
  rewrite IH; [done|]. intros H. apply Hx. by right.
Qed.

Lemma ascii_str_lower_chars (t : text) c :
  c ∈ ascii_str_lower t → (c ∈ t ∧ ¬ (65 ≤ c ≤ 90)%N) ∨ (∃ d, d ∈ t ∧ (65 ≤ d ≤ 90)%N ∧ c = d + 32)%N.
Proof.
  intros (d & -> & Hd)%list_elem_of_fmap.
  destruct ((65 <=? d)%N && (d <=? 90)%N) eqn:E.
  - right. exists d. apply andb_true_iff in E as [E1 E2].
    apply N.leb_le in E1, E2. split; [done|split; [lia|done]].
  - left. split; [done|]. apply andb_false_iff in E as [E|E];
      apply N.leb_gt in E; lia.
Qed.

Lemma ascii_str_lower_keeps_line_ends : lower_keeps_line_ends ascii_str_lower.
Proof.
  intros t c Hc Hlc. apply ascii_str_lower_chars in Hc as [[Hc _]|(d & _ & Hd & ->)]; [done|lia].
Qed.

Lemma ascii_str_lower_no_upper : lower_no_upper ascii_str_lower.
Proof.
  intros t c Hc. apply ascii_str_lower_chars in Hc as [[_ Hc]|(d & _ & Hd & ->)]; [done|lia].
Qed.
(** ** The set iteration order

    [line = list(set(line))] removes duplicate words, and lists the
    remaining ones in the iteration order of a Python [set].  That order
    is not specified by the language: for [str] it depends on the hashes,
    which CPython randomises per process.  A run of the program is
    therefore modelled with one such order: a function giving, for every
    list, the list of its distinct elements in some order. *)
Record set_order := {
  list_of_set :> list text → list text;
  list_of_set_NoDup l : NoDup (list_of_set l);
  list_of_set_elem l x : x ∈ list_of_set l ↔ x ∈ l
}.

(** Outcomes of the in-memory engine: a value, the exception
    [Exception("Synonym ... not found in the file")] raised by
    [substitute_synonyms], or exhaustion of the fuel that bounds the
    loops of the model (proved never to happen). *)
Inductive outcome (A : Type) :=
  | Ok (a : A)
  | SynonymNotFound (w : text)
  | OutOfFuel.
Arguments Ok {_} _.
Arguments SynonymNotFound {_} _.
Arguments OutOfFuel {_}.

Global Instance outcome_ret : MRet outcome := λ A a, Ok a.
Global Instance outcome_bind : MBind outcome := λ A B f m,
  match m with
  | Ok a => f a
  | SynonymNotFound w => SynonymNotFound w
  | OutOfFuel => OutOfFuel
  end.

(** A SynonymLine is a list of words, a SynonymFile a list of lines. *)
Abbreviation line := (list text).
Abbreviation lines := (list (list text)).

(** ** [substitute_synonyms]

<<
    def substitute_synonyms(synonym_to_be_substituted, synonyms_to_group, index_of_synonyms_to_group):
        for i, line in enumerate(synonymsByLine):
            if synonym_to_be_substituted in line:
                synonymsByLine[i] += synonyms_to_group
                synonymsByLine[index_of_synonyms_to_group] = []
                return
        raise Exception(f"Synonym {synonym_to_be_substituted} not found in the file")
>>
    When [i] is the index of [synonyms_to_group] itself the two names
    alias one list, which [+=] doubles before the slot is cleared: the
    final list of lines is the same as below either way. *)
Definition substitute_synonyms (w : text) (group : line) (idx : nat)
    (synonymsByLine : lines) : outcome lines :=
  match list_find (λ l, w ∈ l) synonymsByLine with
  | Some (i, l) => Ok (<[idx := []]> (<[i := l ++ group]> synonymsByLine))
  | None => SynonymNotFound w
  end.

(** ** The loop [for synonym in line] over a deduplicated line

<<
            for synonym in line:
                if synonym in processedSynonyms:
                    ... break
                processedSynonyms.add(synonym)
>>  *)
Inductive scan_result :=
  | Clean (processed : gset text)
  | Repeated (synonym : text) (processed : gset text).

Fixpoint scan_line (l : line) (processed : gset text) : scan_result :=
  match l with
  | [] => Clean processed
  | synonym :: l' =>
      if decide (synonym ∈ processed) then Repeated synonym processed
      else scan_line l' ({[synonym]} ∪ processed)
  end.

(** ** One iteration of [for i, line in enumerate(synonymsByLine)]

    The state of the pass: the list being mutated, the position [i] of
    the enumerate iterator, the set [processedSynonyms] and the flag
    [changes]. *)
Record pass_state := mk_pass {
  synonymsByLine : lines;
  pos : nat;
  processedSynonyms : gset text;
  changes : bool
}.

(**
<<
            if not line or len(line) < 2:
                changes = True
                synonymsByLine.pop(i)
                continue
            length = len(line)
            line = list(set(line))
            if len(line) != length:
                changes = True
            synonymsByLine[i] = line
            for synonym in line:
                if synonym in processedSynonyms:
                    substitute_synonyms(synonym, line, i)
                    changes = True
                    processedSynonyms = processedSynonyms.union(line)
                    break
                processedSynonyms.add(synonym)
>>
    After [pop(i)] the iterator still moves on to index [i + 1]: the
    line that slid into index [i] is not visited in this pass. *)
Definition pass_body (so : set_order) (st : pass_state) (l : line)
    : outcome pass_state :=
  let i := pos st in
  if decide (length l < 2) then
    Ok (mk_pass (delete i (synonymsByLine st)) (S i) (processedSynonyms st) true)
  else
    let l' := so l in
    let ch := changes st || negb (Nat.eqb (length l') (length l)) in
    let ls := <[i := l']> (synonymsByLine st) in
    match scan_line l' (processedSynonyms st) with
    | Clean processed => Ok (mk_pass ls (S i) processed ch)
    | Repeated synonym processed =>
        ls' ← substitute_synonyms synonym l' i ls;
        Ok (mk_pass ls' (S i) (processed ∪ list_to_set l') true)
    end.

(** The enumerate loop: it stops when the iterator position is past the
    end of the (mutated) list.  The list never grows during a pass, so
    [length synonymsByLine] iterations suffice (lemma [for_lines_fuel]). *)
Fixpoint for_lines (so : set_order) (fuel : nat) (st : pass_state)
    : outcome pass_state :=
  match synonymsByLine st !! pos st with
  | None => Ok st
  | Some l =>
      match fuel with
      | O => OutOfFuel
      | S fuel' => st' ← pass_body so st l; for_lines so fuel' st'
      end
  end.

Definition pass_init (ls : lines) : pass_state := mk_pass ls 0 ∅ false.

(** One full pass of the [while changes:] loop, returning the new list
    and the [changes] flag. *)
Definition one_pass (so : set_order) (ls : lines) : outcome (lines * bool) :=
  st ← for_lines so (length ls) (pass_init ls);
  Ok (synonymsByLine st, changes st).

(** ** The loop [while changes:] *)
Fixpoint while_changes (so : set_order) (fuel : nat) (ls : lines)
    : outcome lines :=
  match fuel with
  | O => OutOfFuel
  | S fuel' =>
      match one_pass so ls with
      | Ok (ls', true) => while_changes so fuel' ls'
      | Ok (ls', false) => Ok ls'
      | SynonymNotFound w => SynonymNotFound w
      | OutOfFuel => OutOfFuel
      end
  end.

(** A measure that every change of a pass decreases: an empty line costs
    1, a non-empty one 2 plus its number of words. *)
Definition line_cost (l : line) : nat :=
  match l with [] => 1 | _ => 2 + length l end.
Definition weight (ls : lines) : nat := sum_list_with line_cost ls.

(** The consolidation of a SynonymFile: the [while] loop, with a number of
    passes that is proved sufficient ([consolidate_terminates]). *)
Definition consolidate (so : set_order) (ls : lines) : outcome lines :=
  while_changes so (S (weight ls)) ls.

(** ** Two set iteration orders, used to run the model on examples *)

(** Distinct elements, last occurrences kept ([remove_dups]). *)
Definition set_order_last : set_order :=
  {| list_of_set := remove_dups;
     list_of_set_NoDup := NoDup_remove_dups;
     list_of_set_elem l x := elem_of_remove_dups l x |}.

Lemma reverse_remove_dups_elem (l : list text) (x : text) :
  x ∈ reverse (remove_dups l) ↔ x ∈ l.
Proof. rewrite elem_of_reverse. apply elem_of_remove_dups. Qed.

Lemma reverse_remove_dups_NoDup (l : list text) : NoDup (reverse (remove_dups l)).
Proof. rewrite reverse_Permutation. apply NoDup_remove_dups. Qed.

(** The same elements in the opposite order. *)
Definition set_order_rev : set_order :=
  {| list_of_set l := reverse (remove_dups l);
     list_of_set_NoDup := reverse_remove_dups_NoDup;
     list_of_set_elem := reverse_remove_dups_elem |}.


(** ** [group_synonyms(filename)]

<<
    with open(os.path.join(SYNONYMS_DIR, filename), 'r', encoding='utf-8') as file:
        lines = file.readlines()
    if filename.endswith(".csv"):
        separator = ","
    elif filename.endswith(".tsv"):
        separator = "\t"
    else:
        raise Exception(f"{filename} is an invalid file extension. ...")
    synonymsByLine = list(map(lambda line: line.strip().lower().split(separator), lines))
    ... (the while loop) ...
    with open(os.path.join(SYNONYMS_DIR, filename), 'w', encoding='utf-8') as file:
        for line in synonymsByLine:
            file.write(separator.join(line) + "\n")
>>  *)
Definition separator_of (filename : text) : option N :=
  if py_endswith filename (str ".csv") then Some 44%N
  else if py_endswith filename (str ".tsv") then Some 9%N
  else None.

(** [line.strip().lower().split(separator)], with [str.lower()] given. *)
Definition tokenize (str_lower : text → text) (sep : N) (l : text) : line :=
  py_split_on sep (str_lower (py_strip l)).

(** What the write loop writes (a line end is written as ["\n"]). *)
Definition render (sep : N) (ls : lines) : text :=
  mjoin (map (λ l, py_join [sep] l ++ [10%N]) ls).

(** The exceptions that can leave [group_synonyms]: the file cannot be
    opened or decoded, the extension is refused, [substitute_synonyms]
    raises, or the file cannot be opened for writing. *)
Inductive py_exception :=
  | ReadError
  | InvalidExtension (filename : text)
  | SynonymMissing (w : text)
  | WriteError.

Inductive run_result :=
  | Written (contents : text)
  | Raised (e : py_exception)
  | NoResult.

(** [file] is the content of the synonyms file named [filename], [None]
    when opening or decoding it fails; [writable] tells whether
    [open(..., 'w')] succeeds.  When it fails the exception leaves the
    file as it was; a failure of the writes after a successful [open]
    (a full disk) is not modelled. *)
Definition group_synonyms (so : set_order) (str_lower : text → text)
    (filename : text) (file : option text) (writable : bool) : run_result :=
  match file with
  | None => Raised ReadError
  | Some contents =>
      let ls := readlines_t contents in
      match separator_of filename with
      | None => Raised (InvalidExtension filename)
      | Some sep =>
          let synonymsByLine := map (tokenize str_lower sep) ls in
          match consolidate so synonymsByLine with
          | Ok final => if writable then Written (render sep final) else Raised WriteError
          | SynonymNotFound w => Raised (SynonymMissing w)
          | OutOfFuel => NoResult
          end
      end
  end.

(** ** Connectivity of words through lines

    Two words are [together] when some line contains both; [connected]
    is its transitive closure: a chain of lines, each sharing a word with
    the next, leads from one word to the other. *)
Definition together (ls : lines) (a b : text) : Prop :=
  ∃ l, l ∈ ls ∧ a ∈ l ∧ b ∈ l.

Definition connected (ls : lines) : relation text := tc (together ls).

(** Two lists of lines that connect the same pairs of distinct words. *)
Definition same_links (ls1 ls2 : lines) : Prop :=
  ∀ a b, a ≠ b → connected ls1 a b ↔ connected ls2 a b.

(** Every line of [ls1] is contained in some line of [ls2]. *)
Definition covered (ls1 ls2 : lines) : Prop :=
  ∀ l1, l1 ∈ ls1 → ∃ l2, l2 ∈ ls2 ∧ ∀ x, x ∈ l1 → x ∈ l2.

(** No word lies in two lines at different indices. *)
Definition disjoint_lines (ls : lines) : Prop :=
  ∀ i j li lj x, i ≠ j → ls !! i = Some li → ls !! j = Some lj →
    x ∈ li → x ∉ lj.

(** The shape the spec requires of the final SynonymFile. *)
Definition converged (ls : lines) : Prop :=
  (∀ l, l ∈ ls → NoDup l ∧ 2 ≤ length l) ∧ disjoint_lines ls.

(** A word occurring in a line of [ls] with another, distinct word. *)
Definition has_partner (ls : lines) (w : text) : Prop :=
  ∃ l, l ∈ ls ∧ w ∈ l ∧ ∃ v, v ∈ l ∧ v ≠ w.

(** Words occurring somewhere in [ls]. *)
Definition occurs (ls : lines) (w : text) : Prop := ∃ l, l ∈ ls ∧ w ∈ l.

(** * Proofs *)

(** ** Lines under insert and delete *)

Lemma elem_of_insert_lines (ls : lines) i x l :
  l ∈ <[i := x]> ls → l ∈ ls ∨ l = x.
Proof.
  intros (j & Hj)%list_elem_of_lookup.
  rewrite list_lookup_insert in Hj.
  case_decide.
  - right. congruence.
  - left. by eapply list_elem_of_lookup_2.
Qed.

Lemma elem_of_insert_other (ls : lines) i j x l :
  ls !! j = Some l → j ≠ i → l ∈ <[i := x]> ls.
Proof.
  intros Hj Hne. apply (list_elem_of_lookup_2 _ j).
  by rewrite list_lookup_insert_ne by lia.
Qed.

Lemma elem_of_delete_lines (ls : lines) i l : l ∈ delete i ls → l ∈ ls.
Proof.
  intros (j & Hj)%list_elem_of_lookup.
  rewrite list_lookup_delete in Hj. case_decide; eapply list_elem_of_lookup_2; eauto.
Qed.

Lemma elem_of_delete_other (ls : lines) i j l :
  ls !! j = Some l → j ≠ i → l ∈ delete i ls.
Proof.
  intros Hj Hne. destruct (decide (j < i)).
  - apply (list_elem_of_lookup_2 _ j). by rewrite list_lookup_delete_lt.
  - destruct j as [|j]; [lia|].
    apply (list_elem_of_lookup_2 _ j). rewrite list_lookup_delete_ge by lia. done.
Qed.

(** ** Connectivity lemmas *)

Lemma connected_mono (ls1 ls2 : lines) :
  (∀ a b, together ls1 a b → connected ls2 a b) →
  ∀ a b, connected ls1 a b → connected ls2 a b.
Proof.
  intros H a b Hab. induction Hab as [a b Hab|a b c Hab _ IH].
  - by apply H.
  - by transitivity b; [apply H|].
Qed.

Lemma connected_covered (ls1 ls2 : lines) :
  covered ls1 ls2 → ∀ a b, connected ls1 a b → connected ls2 a b.
Proof.
  intros Hc. apply connected_mono. intros a b (l1 & Hl1 & Ha & Hb).
  destruct (Hc l1 Hl1) as (l2 & Hl2 & Hsub). apply tc_once. exists l2. eauto.
Qed.

Lemma together_connected (ls : lines) a b : together ls a b → connected ls a b.
Proof. apply tc_once. Qed.

Lemma connected_sym (ls : lines) a b : connected ls a b → connected ls b a.
Proof.
  induction 1 as [a b (l & ? & ? & ?)|a b c (l & ? & ? & ?) _ IH].
  - apply tc_once. exists l. done.
  - transitivity b; [done|]. apply tc_once. exists l. done.
Qed.

(** Reaching a different word: the first step already leaves the start. *)
Lemma connected_partner (ls : lines) a b :
  connected ls a b → a ≠ b → has_partner ls a.
Proof.
  induction 1 as [a b (l & Hl & Ha & Hb)|a b c (l & Hl & Ha & Hb) _ IH]; intros Hne.
  - exists l. split_and!; [done|done|]. exists b. split; [done|congruence].
  - destruct (decide (b = a)) as [->|Hba].
    + by apply IH.
    + exists l. split_and!; [done|done|]. exists b. done.
Qed.

Lemma partner_connected (ls : lines) a :
  has_partner ls a → ∃ b, b ≠ a ∧ connected ls a b.
Proof.
  intros (l & Hl & Ha & b & Hb & Hne). exists b. split; [done|].
  apply tc_once. exists l. done.
Qed.

Lemma same_links_refl (ls : lines) : same_links ls ls.
Proof. intros a b _. done. Qed.

Lemma same_links_trans (ls1 ls2 ls3 : lines) :
  same_links ls1 ls2 → same_links ls2 ls3 → same_links ls1 ls3.
Proof. intros H12 H23 a b Hne. rewrite (H12 a b Hne). by apply H23. Qed.

Lemma same_links_partner (ls1 ls2 : lines) w :
  same_links ls1 ls2 → has_partner ls1 w → has_partner ls2 w.
Proof.
  intros Hs Hp. destruct (partner_connected _ _ Hp) as (b & Hne & Hc).
  apply (connected_partner _ w b); [|done]. apply Hs; [done|]. exact Hc.
Qed.

(** ** The measure [weight] under insert and delete *)

Lemma weight_app (ls1 ls2 : lines) : weight (ls1 ++ ls2) = weight ls1 + weight ls2.
Proof. apply sum_list_with_app. Qed.

Lemma weight_insert (ls : lines) i x y :
  ls !! i = Some y → weight (<[i := x]> ls) + line_cost y = weight ls + line_cost x.
Proof.
  intros Hi. pose proof (lookup_lt_Some _ _ _ Hi) as Hlt.
  rewrite insert_take_drop by done.
  rewrite <-(take_drop_middle ls i y Hi) at 3.
  rewrite !weight_app. simpl. lia.
Qed.

Lemma weight_delete (ls : lines) i y :
  ls !! i = Some y → weight (delete i ls) + line_cost y = weight ls.
Proof.
  intros Hi. rewrite delete_take_drop.
  rewrite <-(take_drop_middle ls i y Hi) at 3.
  rewrite !weight_app. simpl. lia.
Qed.

Lemma line_cost_pos l : 1 ≤ line_cost l.
Proof. destruct l; simpl; lia. Qed.

(** ** The three changes a pass makes preserve the links between words *)

(** [synonymsByLine.pop(i)] of a line with fewer than two entries. *)
Lemma pop_same_links (ls : lines) i l :
  ls !! i = Some l → length l < 2 → same_links ls (delete i ls).
Proof.
  intros Hi Hlen a b Hne. split.
  - intros Hab.
    assert (Hrtc : ∀ x y, connected ls x y → rtc (together (delete i ls)) x y).
    { intros x y Hxy. induction Hxy as [x y Hxy|x y z Hxy _ IH].
      - destruct Hxy as (l' & Hl' & Hx & Hy).
        apply list_elem_of_lookup in Hl' as [j Hj].
        destruct (decide (j = i)) as [->|Hji].
        + assert (x = y) as ->.
          { rewrite Hi in Hj. injection Hj as <-.
            destruct l as [|u [|? ?]]; simpl in Hlen;
              [by apply not_elem_of_nil in Hx| |lia].
            apply list_elem_of_singleton in Hx, Hy. congruence. }
          reflexivity.
        + apply rtc_once. exists l'. split_and!; [|done|done].
          by eapply elem_of_delete_other.
      - etransitivity; [|exact IH].
        destruct Hxy as (l' & Hl' & Hx & Hy).
        apply list_elem_of_lookup in Hl' as [j Hj].
        destruct (decide (j = i)) as [->|Hji].
        + assert (x = y) as ->.
          { rewrite Hi in Hj. injection Hj as <-.
            destruct l as [|u [|? ?]]; simpl in Hlen;
              [by apply not_elem_of_nil in Hx| |lia].
            apply list_elem_of_singleton in Hx, Hy. congruence. }
          reflexivity.
        + apply rtc_once. exists l'. split_and!; [|done|done].
          by eapply elem_of_delete_other. }
    apply Hrtc in Hab. apply rtc_tc in Hab as [?|?]; [done|done].
  - apply connected_covered. intros l1 Hl1. exists l1.
    split; [by eapply elem_of_delete_lines|done].
Qed.

Lemma covered_insert_same (ls : lines) i l l' :
  ls !! i = Some l → (∀ x, x ∈ l → x ∈ l') → covered ls (<[i := l']> ls).
Proof.
  intros Hi Hsub l1 Hl1. apply list_elem_of_lookup in Hl1 as [j Hj].
  destruct (decide (j = i)) as [->|Hji].
  - rewrite Hi in Hj. injection Hj as <-. exists l'. split; [|done].
    apply list_elem_of_insert. by eapply lookup_lt_Some.
  - exists l1. split; [|done]. by eapply elem_of_insert_other.
Qed.

Lemma covered_insert_back (ls : lines) i l l' :
  (∀ x, x ∈ l' → x ∈ l) → ls !! i = Some l → covered (<[i := l']> ls) ls.
Proof.
  intros Hsub Hi l1 Hl1. apply elem_of_insert_lines in Hl1 as [Hl1| ->].
  - exists l1. done.
  - exists l. split; [by eapply list_elem_of_lookup_2|done].
Qed.

(** [synonymsByLine[i] = list(set(line))]: the same words, so the same
    links. *)
Lemma dedup_same_links (so : set_order) (ls : lines) i l :
  ls !! i = Some l → same_links ls (<[i := so l]> ls).
Proof.
  intros Hi a b _. split; apply connected_covered.
  - apply (covered_insert_same _ _ l). done. intros x. apply list_of_set_elem.
  - apply (covered_insert_back _ _ l). intros x. apply list_of_set_elem. done.
Qed.

Lemma dedup_length (so : set_order) (l : line) : length (so l) ≤ length l.
Proof.
  apply NoDup_incl_length; [apply NoDup_ListNoDup, list_of_set_NoDup|].
  intros x Hx. apply list_elem_of_In, (list_of_set_elem so), list_elem_of_In. done.
Qed.

Lemma dedup_nil (so : set_order) (l : line) : so l = [] ↔ l = [].
Proof.
  split; intros H.
  - destruct l as [|x l]; [done|]. exfalso.
    assert (x ∈ so (x :: l)) as Hx by (apply list_of_set_elem; left).
    rewrite H in Hx. by apply not_elem_of_nil in Hx.
  - destruct (so l) as [|x l'] eqn:E; [done|]. exfalso.
    assert (x ∈ so l) as Hx by (rewrite E; left).
    apply list_of_set_elem in Hx. subst. by apply not_elem_of_nil in Hx.
Qed.

Lemma dedup_cost (so : set_order) (l : line) : line_cost (so l) ≤ line_cost l.
Proof.
  pose proof (dedup_length so l) as Hlen. pose proof (dedup_nil so l) as Hnil.
  destruct (so l) as [|x l'], l as [|y l]; simpl in *; lia.
Qed.

(** [substitute_synonyms] appending line [i] to an earlier line [t] that
    shares the word [w], then clearing line [i]. *)
Section merge.
Context (ls : lines) (t i : nat) (T l : line) (w : text).
Hypothesis (Ht : ls !! t = Some T) (Hi : ls !! i = Some l) (Hti : t ≠ i).
Hypothesis (HwT : w ∈ T) (Hwl : w ∈ l).

Let merged : lines := <[i := []]> (<[t := T ++ l]> ls).

Lemma merged_lookup_t : merged !! t = Some (T ++ l).
Proof.
  unfold merged. rewrite list_lookup_insert_ne by done.
  apply list_lookup_insert_eq. by eapply lookup_lt_Some.
Qed.

Lemma merge_same_links : same_links ls merged.
Proof.
  intros a b _. split.
  - apply connected_covered. intros l1 Hl1.
    apply list_elem_of_lookup in Hl1 as [j Hj].
    destruct (decide (j = t)) as [->|Hjt]; [|destruct (decide (j = i)) as [->|Hji]].
    + rewrite Ht in Hj. injection Hj as <-. exists (T ++ l).
      split; [eapply list_elem_of_lookup_2, merged_lookup_t|].
      intros x Hx. apply elem_of_app. by left.
    + rewrite Hi in Hj. injection Hj as <-. exists (T ++ l).
      split; [eapply list_elem_of_lookup_2, merged_lookup_t|].
      intros x Hx. apply elem_of_app. by right.
    + exists l1. split; [|done]. unfold merged.
      apply (list_elem_of_lookup_2 _ j).
      by rewrite !list_lookup_insert_ne by done.
  - apply connected_mono. intros x y (l2 & Hl2 & Hx & Hy).
    unfold merged in Hl2.
    apply elem_of_insert_lines in Hl2 as [Hl2| ->];
      [|by apply not_elem_of_nil in Hx].
    apply elem_of_insert_lines in Hl2 as [Hl2| ->].
    + apply together_connected. exists l2. done.
    + assert (Hin : ∀ z, z ∈ T ++ l → connected ls z w).
      { intros z [Hz|Hz]%elem_of_app; apply together_connected.
        - exists T. split_and!; [by eapply list_elem_of_lookup_2|done|done].
        - exists l. split_and!; [by eapply list_elem_of_lookup_2|done|done]. }
      transitivity w; [by apply Hin|]. by apply connected_sym, Hin.
Qed.

Lemma merge_weight : weight merged + 1 ≤ weight ls.
Proof.
  assert (HT : T ≠ []) by (intros ->; by apply not_elem_of_nil in HwT).
  assert (Hl : l ≠ []) by (intros ->; by apply not_elem_of_nil in Hwl).
  pose proof (weight_insert ls t (T ++ l) T Ht) as H1.
  assert (Hi' : <[t := T ++ l]> ls !! i = Some l)
    by (rewrite list_lookup_insert_ne by done; done).
  pose proof (weight_insert _ i [] l Hi') as H2.
  unfold merged.
  destruct T as [|x T']; [done|]. destruct l as [|y l']; [done|].
  simpl in *. rewrite length_app in H1. simpl in H1. lia.
Qed.
End merge.

(** ** The scan [for synonym in line] *)

Lemma scan_line_clean (l : line) (P P' : gset text) :
  scan_line l P = Clean P' → P' = list_to_set l ∪ P ∧ ∀ x, x ∈ l → x ∉ P.
Proof.
  revert P. induction l as [|y l IH]; intros P Hs; simpl in Hs.
  - injection Hs as <-. split; [set_solver|]. intros x Hx. by apply not_elem_of_nil in Hx.
  - case_decide as Hy; [done|].
    apply IH in Hs as [-> Hfresh]. split; [set_solver|].
    intros x [->|Hx]%elem_of_cons; [done|].
    specialize (Hfresh x Hx). set_solver.
Qed.

Lemma scan_line_repeated (l : line) (P P' : gset text) w :
  NoDup l → scan_line l P = Repeated w P' →
  w ∈ l ∧ w ∈ P ∧ P ⊆ P' ∧ P' ⊆ list_to_set l ∪ P.
Proof.
  revert P. induction l as [|y l IH]; intros P Hnd Hs; simpl in Hs; [done|].
  apply NoDup_cons in Hnd as [Hy Hnd].
  case_decide as HyP.
  - injection Hs as <- <-. split_and!; [left|done|set_solver|set_solver].
  - apply IH in Hs as (Hw & HwP & Hsub & Hsup); [|done].
    assert (w ≠ y) by (intros ->; done).
    split_and!; [by right|set_solver|set_solver|set_solver].
Qed.

(** ** The invariant of one pass

    [ls0] is the list at the start of the pass.  Every processed word
    lies in a line already visited; the lines link the same words as
    [ls0]; each change so far has lowered the weight; and while nothing
    changed, the visited lines are the deduplicated lines of [ls0],
    pairwise disjoint, with at least two words each. *)
Definition pass_step (so : set_order) (st st' : pass_state) : Prop :=
  ∃ l, synonymsByLine st !! pos st = Some l ∧ pass_body so st l = Ok st'.

Section pass.
Context (so : set_order) (ls0 : lines).

Definition clean_prefix (st : pass_state) : Prop :=
  synonymsByLine st = map so (take (pos st) ls0) ++ drop (pos st) ls0 ∧
  pos st ≤ length ls0 ∧
  (∀ j l, j < pos st → synonymsByLine st !! j = Some l →
     NoDup l ∧ 2 ≤ length l ∧ ∀ x, x ∈ l → x ∈ processedSynonyms st) ∧
  (∀ j k lj lk x, j < k → k < pos st →
     synonymsByLine st !! j = Some lj → synonymsByLine st !! k = Some lk →
     x ∈ lj → x ∉ lk).

Record pass_inv (st : pass_state) : Prop := {
  inv_processed : ∀ w, w ∈ processedSynonyms st →
    ∃ j l, j < pos st ∧ synonymsByLine st !! j = Some l ∧ w ∈ l;
  inv_links : same_links ls0 (synonymsByLine st);
  inv_weight : weight (synonymsByLine st) + (if changes st then 1 else 0) ≤ weight ls0;
  inv_length : length (synonymsByLine st) ≤ length ls0;
  inv_clean : changes st = false → clean_prefix st
}.

Lemma pass_inv_init : pass_inv (pass_init ls0).
Proof.
  split; simpl.
  - intros w Hw. set_solver.
  - apply same_links_refl.
  - lia.
  - lia.
  - intros _. split_and!; simpl.
    + done.
    + lia.
    + intros; lia.
    + intros; lia.
Qed.
Lemma dedup_cost_strict (l : line) :
  2 ≤ length l → length (so l) ≠ length l → line_cost (so l) + 1 ≤ line_cost l.
Proof.
  intros Hl Hne. pose proof (dedup_length so l) as Hlen.
  pose proof (dedup_nil so l) as Hnil.
  destruct l as [|y l]; [simpl in Hl; lia|].
  destruct (so (y :: l)) as [|x l'] eqn:E; [naive_solver|].
  simpl in *. lia.
Qed.

Lemma dedup_cost_eq (l : line) :
  2 ≤ length l → length (so l) = length l → line_cost (so l) = line_cost l.
Proof.
  intros Hl Heq. destruct l as [|y l]; [simpl in Hl; lia|].
  destruct (so (y :: l)) as [|x l'] eqn:E; [simpl in Heq; lia|].
  simpl in *. lia.
Qed.

(** One iteration of the enumerate loop keeps the invariant, never
    raises, and moves the iterator one step on a list that does not
    grow. *)
Lemma pass_body_ok (st : pass_state) (l : line) :
  pass_inv st → synonymsByLine st !! pos st = Some l →
  ∃ st', pass_body so st l = Ok st' ∧ pass_inv st' ∧
    length (synonymsByLine st') ≤ length (synonymsByLine st) ∧
    pos st' = S (pos st).
Proof.
  intros Hinv Hl. destruct Hinv as [Hproc Hlinks Hweight Hlength Hclean].
  destruct st as [lns i P ch]; simpl in *.
  pose proof (lookup_lt_Some _ _ _ Hl) as Hi.
  unfold pass_body; simpl.
  case_decide as Hlen.
  - (* [pop(i)] *)
    eexists; split; [reflexivity|]. simpl.
    rewrite length_delete by eauto.
    split_and!; [constructor; simpl| lia | done].
    + intros w Hw. destruct (Hproc w Hw) as (j & lj & Hj & Hlj & Hw').
      exists j, lj. split_and!; [lia| |done]. by rewrite list_lookup_delete_lt.
    + eapply same_links_trans; [exact Hlinks|]. by eapply pop_same_links.
    + pose proof (weight_delete _ _ _ Hl). pose proof (line_cost_pos l).
      destruct ch; lia.
    + rewrite length_delete by eauto. lia.
    + done.
  - (* [line = list(set(line))]; [synonymsByLine[i] = line] *)
    assert (Hnd : NoDup (so l)) by apply list_of_set_NoDup.
    assert (Hsub : ∀ x, x ∈ so l ↔ x ∈ l) by (intros; apply list_of_set_elem).
    set (ls := <[i := so l]> lns).
    assert (Hls_i : ls !! i = Some (so l)) by (by apply list_lookup_insert_eq).
    assert (Hls_j : ∀ j, j ≠ i → ls !! j = lns !! j)
      by (intros; by apply list_lookup_insert_ne).
    assert (Hlinks' : same_links ls0 ls).
    { eapply same_links_trans; [exact Hlinks|]. by apply dedup_same_links. }
    assert (Hwls : weight ls + line_cost l = weight lns + line_cost (so l))
      by (by apply weight_insert).
    pose proof (dedup_cost so l) as Hcost.
    assert (Hlen_ls : length ls = length lns) by apply length_insert.
    destruct (scan_line (so l) P) as [P'|w P'] eqn:Hscan.
    + (* no repeated synonym *)
      apply scan_line_clean in Hscan as [HP' Hfresh].
      eexists; split; [reflexivity|]. simpl.
      split_and!; [constructor; simpl| lia | done].
      * intros x Hx. rewrite HP' in Hx. apply elem_of_union in Hx as [Hx|Hx].
        -- apply elem_of_list_to_set in Hx. exists i, (so l). split_and!; [lia|done|done].
        -- destruct (Hproc x Hx) as (j & lj & Hj & Hlj & Hx').
           exists j, lj. split_and!; [lia| |done]. rewrite Hls_j by lia. done.
      * exact Hlinks'.
      * destruct ch; simpl in *;
          destruct (Nat.eqb_spec (length (so l)) (length l)) as [Heq|Hne]; simpl.
        -- lia.
        -- lia.
        -- pose proof (dedup_cost_eq l ltac:(lia) Heq). lia.
        -- pose proof (dedup_cost_strict l ltac:(lia) Hne). lia.
      * lia.
      * intros Hch. apply orb_false_iff in Hch as [Hch Heq].
        apply negb_false_iff, Nat.eqb_eq in Heq.
        unfold clean_prefix in Hclean; simpl in Hclean.
        destruct (Hclean Hch) as (Hshape & Hipos & Hlines & Hdisj).
        assert (Hlen_map : length (map so (take i ls0)) = i)
          by (rewrite length_map, length_take; lia).
        assert (Hl0 : ls0 !! i = Some l).
        { rewrite Hshape, lookup_app_r in Hl by lia.
          rewrite Hlen_map, Nat.sub_diag, lookup_drop, Nat.add_0_r in Hl. done. }
        pose proof (lookup_lt_Some _ _ _ Hl0) as Hi0.
        split_and!; simpl.
        -- unfold ls. simpl. rewrite Hshape. rewrite (take_S_r _ _ _ Hl0), map_app.
           rewrite (drop_S _ _ _ Hl0).
           rewrite insert_app_r_alt by lia. rewrite Hlen_map, Nat.sub_diag.
           simpl. rewrite <-app_assoc. done.
        -- lia.
        -- intros j lj Hj Hlj. destruct (decide (j = i)) as [->|Hji].
           ++ rewrite Hls_i in Hlj. injection Hlj as <-.
              split_and!; [done|lia|]. intros x Hx. rewrite HP'. set_solver.
           ++ rewrite Hls_j in Hlj by done.
              destruct (Hlines j lj ltac:(lia) Hlj) as (? & ? & Hin).
              split_and!; [done|done|]. intros x Hx. rewrite HP'.
              apply elem_of_union. right. by apply Hin.
        -- intros j k lj lk x Hjk Hk Hlj Hlk Hx.
           rewrite Hls_j in Hlj by lia.
           destruct (decide (k = i)) as [->|Hki].
           ++ rewrite Hls_i in Hlk. injection Hlk as <-.
              destruct (Hlines j lj ltac:(lia) Hlj) as (_ & _ & Hin).
              intros Hx'. by apply (Hfresh x Hx'), Hin.
           ++ rewrite Hls_j in Hlk by done. apply (Hdisj j k lj lk x); [lia|lia|done..].
    + (* a repeated synonym: [substitute_synonyms(synonym, line, i)] *)
      apply scan_line_repeated in Hscan as (Hw & HwP & HPP' & HP'sub); [|done].
      destruct (Hproc w HwP) as (j & lj & Hj & Hlj & Hwj).
      assert (Hfind : ∃ t T, list_find (λ l0, w ∈ l0) ls = Some (t, T) ∧ t ≤ j).
      { assert (Hlj' : ls !! j = Some lj) by (rewrite Hls_j by lia; done).
        destruct (list_find_elem_of (λ l0, w ∈ l0) ls lj) as [[t T] HtT];
          [by eapply list_elem_of_lookup_2|done|].
        exists t, T. split; [done|].
        apply list_find_Some in HtT as (_ & _ & Hfirst).
        destruct (decide (t ≤ j)); [done|]. exfalso.
        apply (Hfirst j lj Hlj'); [lia|done]. }
      destruct Hfind as (t & T & Hfind & Htj).
      pose proof Hfind as HtT. apply list_find_Some in HtT as (HT & HwT & _).
      assert (Hti : t ≠ i) by lia.
      unfold substitute_synonyms. rewrite Hfind.
      eexists; split; [reflexivity|]. simpl.
      rewrite !length_insert.
      split_and!; [constructor; simpl| lia | done].
      * intros x Hx.
        assert (Hx' : x ∈ so l ∨ x ∈ P).
        { apply elem_of_union in Hx as [Hx|Hx].
          - apply HP'sub in Hx. apply elem_of_union in Hx as [Hx|Hx]; [|by right].
            left. by apply elem_of_list_to_set in Hx.
          - left. by apply elem_of_list_to_set in Hx. }
        destruct Hx' as [Hx'|Hx'].
        -- exists t, (T ++ so l). split_and!; [lia| |].
           ++ by eapply merged_lookup_t.
           ++ apply elem_of_app. by right.
        -- destruct (Hproc x Hx') as (j' & lj' & Hj' & Hlj' & Hxj').
           destruct (decide (j' = t)) as [->|Hj't].
           ++ exists t, (T ++ so l). split_and!; [lia| |].
              ** by eapply merged_lookup_t.
              ** apply elem_of_app. left.
                 rewrite Hls_j in HT by done. rewrite HT in Hlj'. by injection Hlj' as <-.
           ++ exists j', lj'. split_and!; [lia| |done].
              rewrite list_lookup_insert_ne by lia.
              rewrite list_lookup_insert_ne by done. rewrite Hls_j by lia. done.
      * eapply same_links_trans; [exact Hlinks'|].
        by eapply (merge_same_links ls t i T (so l) w).
      * pose proof (merge_weight ls t i T (so l) w HT Hls_i Hti HwT Hw). lia.
      * rewrite !length_insert, Hlen_ls. lia.
      * done.
Qed.
End pass.


(** ** A whole pass *)

Lemma for_lines_run (so : set_order) (ls0 : lines) fuel st :
  pass_inv so ls0 st → length (synonymsByLine st) ≤ pos st + fuel →
  ∃ st', for_lines so fuel st = Ok st' ∧ pass_inv so ls0 st' ∧
    synonymsByLine st' !! pos st' = None ∧ rtc (pass_step so) st st'.
Proof.
  revert st. induction fuel as [|fuel IH]; intros st Hinv Hlen; simpl.
  - destruct (synonymsByLine st !! pos st) as [l|] eqn:E.
    + apply lookup_lt_Some in E. lia.
    + exists st. split_and!; [done|done|done|reflexivity].
  - destruct (synonymsByLine st !! pos st) as [l|] eqn:E.
    + destruct (pass_body_ok so ls0 st l Hinv E) as (st1 & Hbody & Hinv1 & Hlen1 & Hpos1).
      rewrite Hbody. simpl.
      destruct (IH st1 Hinv1 ltac:(lia)) as (st' & Hrun & Hinv' & Hend & Hsteps).
      exists st'. split_and!; [done|done|done|].
      eapply rtc_l; [|exact Hsteps]. exists l. done.
    + exists st. split_and!; [done|done|done|reflexivity].
Qed.

(** Every pass returns (it never raises and its enumerate loop ends); it
    keeps the links between distinct words; a pass that sets [changes]
    lowers the weight; a pass that does not leaves every line
    deduplicated, with at least two words, and no word in two lines. *)
Lemma one_pass_spec (so : set_order) (ls : lines) :
  ∃ ls' ch, one_pass so ls = Ok (ls', ch) ∧ same_links ls ls' ∧
    weight ls' + (if ch then 1 else 0) ≤ weight ls ∧
    (ch = false → ls' = map so ls ∧ converged ls').
Proof.
  destruct (for_lines_run so ls (length ls) (pass_init ls) (pass_inv_init so ls))
    as (st & Hrun & Hinv & Hend & _); [simpl; lia|].
  exists (synonymsByLine st), (changes st).
  unfold one_pass. rewrite Hrun. simpl.
  destruct Hinv as [_ Hlinks Hweight _ Hclean].
  split_and!; [done|done|done|].
  intros Hch. destruct (Hclean Hch) as (Hshape & Hp & Hlines & Hdisj).
  apply lookup_ge_None in Hend.
  assert (Hlen : length (synonymsByLine st) = length ls).
  { rewrite Hshape, length_app, length_map, length_take, length_drop. lia. }
  assert (Hpos : pos st = length ls) by lia.
  assert (Hls : synonymsByLine st = map so ls).
  { rewrite Hshape, Hpos, take_ge, drop_ge by lia. apply app_nil_r. }
  split; [done|]. split.
  - intros l Hl. apply list_elem_of_lookup in Hl as [j Hj].
    pose proof (lookup_lt_Some _ _ _ Hj).
    destruct (Hlines j l ltac:(lia) Hj) as (? & ? & _). done.
  - intros j k lj lk x Hjk Hj Hk Hx.
    pose proof (lookup_lt_Some _ _ _ Hj). pose proof (lookup_lt_Some _ _ _ Hk).
    destruct (decide (j < k)).
    + by apply (Hdisj j k lj lk x); [lia|lia|..].
    + intros Hx'. by apply (Hdisj k j lk lj x); [lia|lia|..].
Qed.

(** ** The [while] loop *)

Lemma while_changes_spec (so : set_order) fuel (ls F : lines) :
  while_changes so fuel ls = Ok F → same_links ls F ∧ converged F.
Proof.
  revert ls. induction fuel as [|fuel IH]; intros ls Hrun; simpl in Hrun; [done|].
  destruct (one_pass_spec so ls) as (ls' & ch & Hpass & Hlinks & _ & Hclean).
  rewrite Hpass in Hrun. destruct ch.
  - destruct (IH ls' Hrun) as [Hlinks' Hconv]. split; [|done].
    by eapply same_links_trans.
  - injection Hrun as <-. split; [done|]. by apply Hclean.
Qed.

Lemma while_changes_no_error (so : set_order) fuel (ls : lines) w :
  while_changes so fuel ls ≠ SynonymNotFound w.
Proof.
  revert ls. induction fuel as [|fuel IH]; intros ls; simpl; [done|].
  destruct (one_pass_spec so ls) as (ls' & ch & Hpass & _).
  rewrite Hpass. destruct ch; [apply IH|done].
Qed.

Lemma while_changes_fuel (so : set_order) fuel (ls : lines) :
  weight ls < fuel → ∃ F, while_changes so fuel ls = Ok F.
Proof.
  revert ls. induction fuel as [|fuel IH]; intros ls Hw; [lia|]. simpl.
  destruct (one_pass_spec so ls) as (ls' & ch & Hpass & _ & Hweight & _).
  rewrite Hpass. destruct ch.
  - apply IH. lia.
  - by eexists.
Qed.

Lemma while_changes_more_fuel (so : set_order) fuel fuel' (ls F : lines) :
  while_changes so fuel ls = Ok F → fuel ≤ fuel' → while_changes so fuel' ls = Ok F.
Proof.
  revert fuel' ls. induction fuel as [|fuel IH]; intros fuel' ls Hrun Hle; [done|].
  destruct fuel' as [|fuel']; [lia|]. simpl in *.
  destruct (one_pass so ls) as [[ls' []]| |]; try done.
  apply IH; [done|lia].
Qed.

Lemma consolidate_ok (so : set_order) (ls : lines) :
  ∃ F, consolidate so ls = Ok F.
Proof. apply while_changes_fuel. lia. Qed.

Lemma consolidate_spec (so : set_order) (ls F : lines) :
  consolidate so ls = Ok F → same_links ls F ∧ converged F.
Proof. apply while_changes_spec. Qed.

(** ** Converged lists of lines *)

Lemma converged_same_line (F : lines) i j li lj x :
  converged F → F !! i = Some li → F !! j = Some lj → x ∈ li → x ∈ lj → i = j.
Proof.
  intros [_ Hdisj] Hi Hj Hx Hx'. destruct (decide (i = j)); [done|].
  exfalso. by apply (Hdisj i j li lj x).
Qed.

Lemma converged_together_trans (F : lines) a b c :
  converged F → together F a b → together F b c → together F a c.
Proof.
  intros Hc (l1 & Hl1 & Ha & Hb) (l2 & Hl2 & Hb' & Hc').
  apply list_elem_of_lookup in Hl1 as [i Hi], Hl2 as [j Hj].
  assert (i = j) as -> by (eapply converged_same_line; eauto).
  rewrite Hi in Hj. injection Hj as <-.
  exists l1. split_and!; [by eapply list_elem_of_lookup_2|done|done].
Qed.

Lemma converged_connected (F : lines) a b :
  converged F → connected F a b → together F a b.
Proof.
  intros Hc. induction 1 as [a b Hab|a b c Hab _ IH]; [done|].
  by eapply converged_together_trans.
Qed.

(** Final lists linking the same words have the same lines, as sets. *)
Lemma converged_same_lines (F1 F2 : lines) :
  converged F1 → converged F2 → same_links F1 F2 →
  ∀ l1, l1 ∈ F1 → ∃ l2, l2 ∈ F2 ∧ ∀ x, x ∈ l1 ↔ x ∈ l2.
Proof.
  intros Hc1 Hc2 Hs l1 Hl1.
  destruct (proj1 Hc1 l1 Hl1) as [Hnd Hlen].
  destruct l1 as [|a [|b l1']]; simpl in Hlen; [lia|lia|].
  assert (Hab : a ≠ b) by (apply NoDup_cons in Hnd as [Hnd _]; intros ->;
    apply Hnd; left).
  assert (HF2 : ∀ x, x ∈ a :: b :: l1' → x ≠ a → together F2 a x).
  { intros x Hx Hxa. apply converged_connected; [done|].
    apply Hs; [congruence|]. apply together_connected.
    exists (a :: b :: l1'). split_and!; [done|left|done]. }
  destruct (HF2 b ltac:(right; left) ltac:(congruence)) as (l2 & Hl2 & Ha2 & _).
  exists l2. split; [done|]. intros x. split.
  - intros Hx. destruct (decide (x = a)) as [->|Hxa]; [done|].
    destruct (HF2 x Hx Hxa) as (l2' & Hl2' & Ha2' & Hx2').
    apply list_elem_of_lookup in Hl2 as [i Hi], Hl2' as [j Hj].
    assert (i = j) as -> by (eapply converged_same_line; [exact Hc2|exact Hi|exact Hj|done|done]).
    rewrite Hi in Hj. by injection Hj as <-.
  - intros Hx. destruct (decide (x = a)) as [->|Hxa]; [left|].
    assert (Hax : together F1 a x).
    { apply converged_connected; [done|]. apply Hs; [congruence|].
      apply together_connected. exists l2. done. }
    destruct Hax as (l1'' & Hl1'' & Ha1 & Hx1).
    apply list_elem_of_lookup in Hl1 as [i Hi], Hl1'' as [j Hj].
    assert (i = j) as -> by (eapply converged_same_line; [exact Hc1|exact Hi|exact Hj|left|done]).
    rewrite Hi in Hj. injection Hj as <-. done.
Qed.

Lemma same_links_sym (ls1 ls2 : lines) : same_links ls1 ls2 → same_links ls2 ls1.
Proof. intros H a b Hne. symmetry. by apply H. Qed.

(** In a converged list every word has a partner in its line. *)
Lemma converged_occurs_partner (F : lines) w :
  converged F → occurs F w → has_partner F w.
Proof.
  intros [Hlines _] (l & Hl & Hw). destruct (Hlines l Hl) as [Hnd Hlen].
  exists l. split_and!; [done|done|].
  destruct l as [|a [|b l']]; simpl in Hlen; [lia|lia|].
  apply NoDup_cons in Hnd as [Ha _].
  destruct (decide (w = a)) as [->|Hwa].
  - exists b. split; [right; left|]. intros ->. apply Ha. left.
  - exists a. split; [left|done].
Qed.

Lemma partner_occurs (ls : lines) w : has_partner ls w → occurs ls w.
Proof. intros (l & Hl & Hw & _). exists l. done. Qed.

(** The words of the result are the words that had a partner. *)
Lemma consolidate_words (so : set_order) (ls F : lines) :
  consolidate so ls = Ok F → ∀ w, occurs F w ↔ has_partner ls w.
Proof.
  intros Hrun w. destruct (consolidate_spec so ls F Hrun) as [Hs Hc]. split.
  - intros Hw. eapply same_links_partner; [by apply same_links_sym|].
    by apply converged_occurs_partner.
  - intros Hw. apply partner_occurs. by eapply same_links_partner.
Qed.

(** ** Reachable states of a pass *)

Lemma pass_steps_inv (so : set_order) (ls0 : lines) st st' :
  rtc (pass_step so) st st' → pass_inv so ls0 st → pass_inv so ls0 st'.
Proof.
  induction 1 as [st|st st1 st' (l & Hl & Hbody) _ IH]; intros Hinv; [done|].
  apply IH. destruct (pass_body_ok so ls0 st l Hinv Hl) as (st2 & Hbody' & Hinv2 & _).
  rewrite Hbody in Hbody'. by injection Hbody' as ->.
Qed.

(** The line found by [substitute_synonyms] comes before the current one. *)
Lemma substitute_target_before (so : set_order) (ls0 : lines) st l w P :
  pass_inv so ls0 st → synonymsByLine st !! pos st = Some l →
  scan_line (so l) (processedSynonyms st) = Repeated w P →
  ∃ t T, list_find (λ l0, w ∈ l0) (<[pos st := so l]> (synonymsByLine st)) = Some (t, T)
    ∧ t < pos st.
Proof.
  intros Hinv Hl Hscan.
  apply scan_line_repeated in Hscan as (Hw & HwP & _); [|apply list_of_set_NoDup].
  destruct (inv_processed _ _ _ Hinv w HwP) as (j & lj & Hj & Hlj & Hwj).
  assert (Hlj' : <[pos st := so l]> (synonymsByLine st) !! j = Some lj)
    by (rewrite list_lookup_insert_ne by lia; done).
  destruct (list_find_elem_of (λ l0, w ∈ l0) (<[pos st := so l]> (synonymsByLine st)) lj)
    as [[t T] HtT]; [by eapply list_elem_of_lookup_2|done|].
  exists t, T. split; [done|].
  apply list_find_Some in HtT as (_ & _ & Hfirst).
  destruct (decide (t ≤ j)); [lia|]. exfalso.
  apply (Hfirst j lj Hlj'); [lia|done].
Qed.


(** ** Example inputs *)

(** Scenario 1 of the spec: ["cat,feline\ndog,canine\nfeline,animal"]. *)
Definition scenario1 : lines :=
  [[str "cat"; str "feline"]; [str "dog"; str "canine"]; [str "feline"; str "animal"]].

Definition scenario1_out : lines :=
  [[str "cat"; str "feline"; str "animal"]; [str "dog"; str "canine"]].

(** The same scenario as file contents. *)
Definition nl : text := [10%N].

Definition scenario1_text : text :=
  str "cat,feline" ++ nl ++ str "dog,canine" ++ nl ++ str "feline,animal" ++ nl.

Definition scenario1_written : text :=
  str "cat,feline,animal" ++ nl ++ str "dog,canine" ++ nl.

Definition csv_name : text := str "synonyms.csv".

(** A pass over [a,b / b,c], stopped before its second line, where [b]
    was already processed. *)
Definition conflict_state : pass_state :=
  mk_pass [[str "a"; str "b"]; [str "b"; str "c"]] 1 (list_to_set [str "a"; str "b"]) false.

(** Two lists of lines with the same lines, taken as sets of words. *)
Definition same_partition (F1 F2 : lines) : Prop :=
  (∀ l1, l1 ∈ F1 → ∃ l2, l2 ∈ F2 ∧ ∀ x, x ∈ l1 ↔ x ∈ l2) ∧
  (∀ l2, l2 ∈ F2 → ∃ l1, l1 ∈ F1 ∧ ∀ x, x ∈ l2 ↔ x ∈ l1).

(** Lines read in the counterexample to C8: the result's line order
    depends on the set order. *)
Definition line_order_text : text :=
  str "d" ++ nl ++ str "d" ++ nl ++ str "c,b" ++ nl ++ str "e,d" ++ nl ++ str "e,d" ++ nl.

(** A csv file whose first two lines start with the comment prefix of
    the surrounding tooling. *)
Definition comment_text : text :=
  str "// note" ++ nl ++ str "//Foo,bar" ++ nl ++ str "bar,baz" ++ nl.

(** A csv line whose words start and end with spaces, the first and
    the last one empty. *)
Definition padded_text : text := str ", x , y ," ++ nl.

(** The characters a word read from a file never holds: the separator
    and the line breaks. *)
Definition token_char (sep c : N) : Prop := c ≠ sep ∧ c ≠ 10%N ∧ c ≠ 13%N.

(** ** File names and separators *)

Lemma endswith_csv_tsv (fname : text) :
  py_endswith fname (str ".csv") = true → py_endswith fname (str ".tsv") = false.
Proof.
  unfold py_endswith. intros Hc%bool_decide_eq_true_1.
  apply bool_decide_eq_false_2. intros Ht.
  destruct Hc as [k1 Hk1], Ht as [k2 Hk2]. rewrite Hk1 in Hk2.
  change (str ".csv") with ([46%N] ++ [99; 115; 118]%N) in Hk2.
  change (str ".tsv") with ([46%N] ++ [116; 115; 118]%N) in Hk2.
  rewrite !app_assoc in Hk2. apply app_inj_2 in Hk2 as [_ Hk2]; [discriminate|done].
Qed.

Lemma separator_chars (fname : text) sep :
  separator_of fname = Some sep → sep ≠ 10%N ∧ sep ≠ 13%N.
Proof.
  unfold separator_of. destruct (py_endswith fname (str ".csv")); [intros [= <-]; done|].
  destruct (py_endswith fname (str ".tsv")); [intros [= <-]; done|done].
Qed.

Lemma group_synonyms_sep (so : set_order) str_lower fname contents writable sep :
  separator_of fname = Some sep →
  group_synonyms so str_lower fname (Some contents) writable =
    match consolidate so (map (tokenize str_lower sep) (readlines_t contents)) with
    | Ok final => if writable then Written (render sep final) else Raised WriteError
    | SynonymNotFound w => Raised (SynonymMissing w)
    | OutOfFuel => NoResult
    end.
Proof. intros H. unfold group_synonyms. by rewrite H. Qed.

(** ** A converged list of lines is a fixed point of the passes *)

Lemma dedup_length_NoDup (so : set_order) (l : line) :
  NoDup l → length (so l) = length l.
Proof.
  intros Hl. apply Nat.le_antisymm; [apply dedup_length|].
  apply NoDup_incl_length; [by apply NoDup_ListNoDup|].
  intros x Hx. apply list_elem_of_In, (list_of_set_elem so), list_elem_of_In. done.
Qed.

Lemma scan_line_fresh (l : line) (P : gset text) :
  NoDup l → (∀ x, x ∈ l → x ∉ P) → scan_line l P = Clean (list_to_set l ∪ P).
Proof.
  revert P. induction l as [|y l IH]; intros P Hnd Hfresh; simpl.
  - f_equal. set_solver.
  - apply NoDup_cons in Hnd as [Hy Hnd].
    rewrite decide_False by (apply Hfresh; left).
    rewrite IH; [f_equal; set_solver|done|].
    intros x Hx. rewrite elem_of_union, elem_of_singleton. intros [->|HxP]; [done|].
    by apply (Hfresh x); [right|].
Qed.

Lemma for_lines_converged (so : set_order) (F : lines) :
  converged F → ∀ n i (P : gset text),
  i + n = length F →
  (∀ x, x ∈ P ↔ ∃ j lj, j < i ∧ F !! j = Some lj ∧ x ∈ lj) →
  ∃ P', for_lines so n (mk_pass (map so (take i F) ++ drop i F) i P false)
          = Ok (mk_pass (map so F) (length F) P' false).
Proof.
  intros Hc n. induction n as [|n IH]; intros i P Hlen HP.
  - rewrite Nat.add_0_r in Hlen. subst i. exists P. simpl.
    rewrite take_ge, drop_ge by done. rewrite app_nil_r.
    rewrite lookup_ge_None_2 by (rewrite length_map; done). done.
  - assert (Hi : i < length F) by lia.
    destruct (lookup_lt_is_Some_2 F i Hi) as [l Hl].
    assert (Hlook : (map so (take i F) ++ drop i F) !! i = Some l).
    { rewrite lookup_app_r by (rewrite length_map, length_take; lia).
      rewrite length_map, length_take, lookup_drop.
      by replace (i + (i - i `min` length F)) with i by lia. }
    assert (Hnd : NoDup l ∧ 2 ≤ length l) by (apply (proj1 Hc); by eapply list_elem_of_lookup_2).
    destruct Hnd as [Hnd H2].
    assert (Hscan : scan_line (so l) P = Clean (list_to_set (so l) ∪ P)).
    { apply scan_line_fresh; [apply list_of_set_NoDup|].
      intros x Hx HxP. apply (proj1 (list_of_set_elem so l x)) in Hx. apply HP in HxP as (j & lj & Hj & Hlj & Hx').
      apply (proj2 Hc j i lj l x); first [lia|done]. }
    destruct (IH (S i) (list_to_set (so l) ∪ P)) as [P' HP']; [lia| |].
    { intros x. rewrite elem_of_union, elem_of_list_to_set, (list_of_set_elem so), HP.
      split.
      - intros [Hx|(j & lj & Hj & Hlj & Hx)]; [exists i, l; auto|exists j, lj; auto].
      - intros (j & lj & Hj & Hlj & Hx). destruct (decide (j = i)) as [->|Hne].
        + left. congruence.
        + right. exists j, lj. split_and!; [lia|done|done]. }
    exists P'. simpl. rewrite Hlook. unfold pass_body. simpl.
    rewrite decide_False by lia. rewrite Hscan.
    rewrite dedup_length_NoDup, Nat.eqb_refl by done. simpl.
    rewrite <- HP'. do 2 f_equal.
    rewrite insert_app_r_alt by (rewrite length_map, length_take; lia).
    rewrite length_map, length_take, Nat.min_l, Nat.sub_diag by lia.
    rewrite (drop_S F l i Hl), (take_S_r F i l Hl), map_app, <- app_assoc. done.
Qed.

Lemma consolidate_converged (so : set_order) (F : lines) :
  converged F → consolidate so F = Ok (map so F).
Proof.
  intros Hc. destruct (for_lines_converged so F Hc (length F) 0 ∅) as [P' HP']; [done| |].
  { intros x. split; [set_solver|]. intros (j & lj & Hj & _). lia. }
  unfold consolidate. simpl. unfold one_pass, pass_init. simpl in HP'. rewrite drop_0 in HP'.
  rewrite HP'. done.
Qed.

(** ** A file of one line *)

(** A duplicate-free list with the distinct words of [l] is a
    reordering of [remove_dups l]. *)
Lemma distinct_words_perm (q l : line) :
  NoDup q → (∀ x, x ∈ q ↔ x ∈ l) → q ∈ permutations (remove_dups l).
Proof.
  intros Hq Hql. apply permutations_Permutation, Permutation_sym, NoDup_Permutation;
    [done|apply NoDup_remove_dups|].
  intros x. rewrite Hql. symmetry. apply elem_of_remove_dups.
Qed.

Lemma one_pass_single (so : set_order) (l : line) :
  2 ≤ length l → one_pass so [l] = Ok ([so l], negb (length (so l) =? length l)).
Proof.
  intros H2. unfold one_pass, pass_init. simpl. unfold pass_body. simpl.
  rewrite decide_False by lia.
  rewrite scan_line_fresh by (first [apply list_of_set_NoDup|set_solver]). reflexivity.
Qed.

Lemma consolidate_single (so : set_order) (l : line) :
  2 ≤ length (remove_dups l) →
  ∃ q, consolidate so [l] = Ok [q] ∧ q ∈ permutations (remove_dups l).
Proof.
  intros H2.
  assert (Hperm : ∀ q, NoDup q → (∀ x, x ∈ q ↔ x ∈ l) → length q = length (remove_dups l)).
  { intros q Hq Hql. apply Permutation_length, NoDup_Permutation; [done|apply NoDup_remove_dups|].
    intros x. rewrite Hql. symmetry. apply elem_of_remove_dups. }
  assert (Hsol : length (so l) = length (remove_dups l))
    by (apply Hperm; [apply list_of_set_NoDup|apply list_of_set_elem]).
  assert (Hl : 2 ≤ length l) by (pose proof (dedup_length so l); lia).
  unfold consolidate. simpl weight. simpl. rewrite (one_pass_single so l Hl).
  destruct (negb (length (so l) =? length l)).
  - replace (line_cost l + 0) with (S (line_cost l - 1)) by (destruct l; simpl in *; lia).
    simpl. rewrite (one_pass_single so (so l)) by lia.
    rewrite dedup_length_NoDup, Nat.eqb_refl by apply list_of_set_NoDup. simpl.
    exists (so (so l)). split; [done|]. apply distinct_words_perm; [apply list_of_set_NoDup|].
    intros x. by rewrite !list_of_set_elem.
  - exists (so l). split; [done|]. apply distinct_words_perm; [apply list_of_set_NoDup|].
    intros x. by rewrite list_of_set_elem.
Qed.

(** ** The words of the lines read from a file *)

Lemma readlines_chars (t l : text) c : l ∈ readlines_t t → c ∈ l → c ∈ t ∨ c = 10%N.
Proof.
  intros Hl Hc. destruct (readlines_shape t l Hl) as (body & Hb & [-> | ->]).
  - apply elem_of_app in Hc as [Hc| ->%list_elem_of_singleton]; [|by right].
    left. apply Hb, Hc.
  - left. apply Hb, Hc.
Qed.

Lemma readlines_strip (t l : text) c :
  l ∈ readlines_t t → c ∈ py_strip l → c ≠ 13%N ∧ c ≠ 10%N ∧ c ∈ t.
Proof.
  intros Hl Hc. destruct (readlines_shape t l Hl) as (body & Hb & [-> | ->]).
  - rewrite py_strip_newline in Hc. apply Hb, py_strip_chars, Hc.
  - apply Hb, py_strip_chars, Hc.
Qed.

(** With a [str.lower()] that brings in no line break, every word read
    from a file holds neither the separator nor a line break; with one
    that never gives an upper-case ASCII letter, no such letter either. *)
Lemma tokenize_chars str_lower sep (t l w : text) c :
  lower_keeps_line_ends str_lower →
  l ∈ readlines_t t → w ∈ tokenize str_lower sep l → c ∈ w →
  token_char sep c ∧ (lower_no_upper str_lower → ¬ (65 ≤ c ≤ 90)%N).
Proof.
  intros Hlow Hl Hw Hc. unfold tokenize in Hw.
  destruct (py_split_on_chars _ _ _ _ Hw Hc) as [Hcl Hsep].
  split; [|intros Hup; exact (Hup _ _ Hcl)].
  split; [done|].
  split; intros ->; destruct (readlines_strip t l _ Hl (Hlow _ _ Hcl ltac:(tauto))) as (? & ? & _);
    done.
Qed.

Lemma consolidate_word_chars (so : set_order) str_lower sep (t : text) (F : lines) :
  lower_keeps_line_ends str_lower →
  consolidate so (map (tokenize str_lower sep) (readlines_t t)) = Ok F →
  ∀ l w c, l ∈ F → w ∈ l → c ∈ w →
    token_char sep c ∧ (lower_no_upper str_lower → ¬ (65 ≤ c ≤ 90)%N).
Proof.
  intros Hlow HF l w c Hl Hw Hc.
  destruct (proj1 (consolidate_words so _ F HF w) ltac:(by exists l))
    as (l0 & Hl0 & Hw0 & _).
  apply list_elem_of_fmap in Hl0 as (l1 & -> & Hl1).
  exact (tokenize_chars str_lower sep t l1 w c Hlow Hl1 Hw0 Hc).
Qed.

(** ** Reading back a written file *)

Lemma render_no_cr sep (F : lines) :
  sep ≠ 13%N → (∀ l w, l ∈ F → w ∈ l → 13%N ∉ w) → 13%N ∉ render sep F.
Proof.
  intros Hsep HF. induction F as [|l F IH]; [by intros ?%not_elem_of_nil|].
  change (render sep (l :: F)) with ((py_join [sep] l ++ [10%N]) ++ render sep F).
  intros [[Hj|H10%list_elem_of_singleton]%elem_of_app|HF']%elem_of_app.
  - apply py_join_chars in Hj as [?|(w & Hw & Hc)]; [done|].
    by apply (HF l w); [left|..].
  - done.
  - apply IH; [|done]. intros l' w Hl' Hw. apply (HF l' w); [by right|done].
Qed.

Lemma readlines_render sep (F : lines) :
  sep ≠ 10%N → sep ≠ 13%N → (∀ l w, l ∈ F → w ∈ l → (10%N ∉ w) ∧ (13%N ∉ w)) →
  readlines_t (render sep F) = map (λ l, py_join [sep] l ++ [10%N]) F.
Proof.
  intros H10 H13 HF. unfold readlines_t.
  rewrite translate_newlines_id
    by (apply render_no_cr; [done|]; intros l w Hl Hw; apply (HF l w Hl Hw)).
  clear H13. induction F as [|l F IH]; [done|].
  change (render sep (l :: F)) with ((py_join [sep] l ++ [10%N]) ++ render sep F).
  rewrite <- app_assoc. simpl. rewrite split_lines_app_newline.
  - f_equal. apply IH. intros l' w Hl' Hw. apply (HF l' w); [by right|done].
  - intros [?|(w & Hw & Hc)]%py_join_chars; [done|].
    exact (proj1 (HF l w ltac:(left) Hw) Hc).
Qed.

Lemma tokenize_written_line str_lower sep (l : line) :
  l ≠ [] → py_strip (py_join [sep] l) = py_join [sep] l →
  str_lower (py_join [sep] l) = py_join [sep] l →
  (∀ w, w ∈ l → sep ∉ w) →
  tokenize str_lower sep (py_join [sep] l ++ [10%N]) = l.
Proof.
  intros Hne Hstrip Hlow Hw. unfold tokenize.
  rewrite py_strip_newline, Hstrip, Hlow. by apply py_split_join.
Qed.

(** ** [str.lower()] on ASCII files *)

Lemma ascii_text_strip (t l : text) :
  ascii_text t → l ∈ readlines_t t → ascii_text (py_strip l).
Proof.
  intros Ht Hl. apply Forall_forall. intros c Hc.
  destruct (readlines_strip t l c Hl Hc) as (_ & _ & Hct).
  exact (proj1 (Forall_forall _ _) Ht c Hct).
Qed.

(** On a file of ASCII characters, [group_synonyms] runs with any
    [str.lower()] as with [ascii_str_lower]. *)
Lemma group_synonyms_ascii (so : set_order) str_lower fname contents writable :
  agrees_on_ascii str_lower → ascii_text contents →
  group_synonyms so str_lower fname (Some contents) writable =
  group_synonyms so ascii_str_lower fname (Some contents) writable.
Proof.
  intros Hlow Ht. unfold group_synonyms.
  destruct (separator_of fname) as [sep|]; [|done].
  rewrite (map_ext_in (tokenize str_lower sep) (tokenize ascii_str_lower sep)); [done|].
  intros l Hl%list_elem_of_In. unfold tokenize. f_equal.
  apply Hlow. by apply (ascii_text_strip contents).
Qed.

#[global] Instance ascii_text_dec (t : text) : Decision (ascii_text t).
Proof. unfold ascii_text. apply _. Defined.

Lemma ascii_str_lower_agrees : agrees_on_ascii ascii_str_lower.
Proof. intros t _. reflexivity. Qed.

(** ** The [.csv] and [.tsv] files are always written *)

(** The test of the [GROUP_SYNONYMS] loop on a file name. *)
Definition csv_or_tsv (filename : text) : bool :=
  py_endswith filename (str ".csv") || py_endswith filename (str ".tsv").

Lemma csv_or_tsv_sep (filename : text) :
  csv_or_tsv filename = true → ∃ sep, separator_of filename = Some sep.
Proof.
  unfold csv_or_tsv, separator_of. intros H.
  destruct (py_endswith filename (str ".csv")); [eauto|].
  destruct (py_endswith filename (str ".tsv")); [eauto|done].
Qed.

Lemma group_synonyms_csv_written (so : set_order) str_lower filename contents :
  csv_or_tsv filename = true →
  ∃ out, group_synonyms so str_lower filename (Some contents) true = Written out.
Proof.
  intros [sep Hsep]%csv_or_tsv_sep. rewrite (group_synonyms_sep _ _ _ _ _ _ Hsep).
  destruct (consolidate_ok so (map (tokenize str_lower sep) (readlines_t contents))) as [F ->].
  eauto.
Qed.

Lemma group_synonyms_not_writable (so : set_order) str_lower filename contents :
  csv_or_tsv filename = true →
  group_synonyms so str_lower filename (Some contents) false = Raised WriteError.
Proof.
  intros [sep Hsep]%csv_or_tsv_sep. rewrite (group_synonyms_sep _ _ _ _ _ _ Hsep).
  destruct (consolidate_ok so (map (tokenize str_lower sep) (readlines_t contents))) as [F ->].
  done.
Qed.
(** ** [normalize(text)]

<<
    PUNCTUATION_TO_REPLACE_WITH_SPACE = r"[...]"
    PUNCTUATION_TO_REMOVE = r"['’`´¨^·]"
    text = re.sub(PUNCTUATION_TO_REMOVE, "", text)
    text = re.sub(PUNCTUATION_TO_REPLACE_WITH_SPACE, " ", text)
    text = re.sub(r"\s+", " ", text)
    return text.strip().lower()
>>
    The two character classes, as code points: [.,;¡!¿?] then the double
    quote, then [-+*|@#$~%&=], the backslash, [/<>(){}] and the brackets;
    and the apostrophe, [’`´¨^·]. *)
Definition PUNCTUATION_TO_REPLACE_WITH_SPACE : list N :=
  [46; 44; 59; 161; 33; 191; 63; 34; 45; 43; 42; 124; 64; 35; 36; 126; 37; 38;
   61; 92; 47; 60; 62; 40; 41; 123; 125; 91; 93]%N.

Definition PUNCTUATION_TO_REMOVE : list N := [39; 8217; 96; 180; 168; 94; 183]%N.

Definition space : N := 32.

Definition remove_punctuation (t : text) : text :=
  List.filter (λ c, negb (bool_decide (c ∈ PUNCTUATION_TO_REMOVE))) t.

Definition replace_punctuation (t : text) : text :=
  map (λ c, if bool_decide (c ∈ PUNCTUATION_TO_REPLACE_WITH_SPACE) then space else c) t.

(** [re.sub(r"\s+", " ", text)]: each maximal run of whitespace becomes one
    space; [in_run] tells that the previous character was whitespace. *)
Fixpoint collapse_whitespace (in_run : bool) (t : text) : text :=
  match t with
  | [] => []
  | c :: r =>
      if py_isspace c then
        if in_run then collapse_whitespace true r
        else space :: collapse_whitespace true r
      else c :: collapse_whitespace false r
  end.

Section normalize.
(** [str.lower], whose Unicode case mapping is left abstract. *)
Variable str_lower : text → text.

Definition normalize (t : text) : text :=
  str_lower (py_strip (collapse_whitespace false
    (replace_punctuation (remove_punctuation t)))).
End normalize.

(** ** [DatamuseService.get_synonyms(word, min_score=500, max_results=10)]

<<
        response = requests.get(self.BASE_URL, params={'rel_syn': word})
        response.raise_for_status()
        data = response.json()
        filtered_synonyms = [item['word'] for item in data if 'score' in item and item['score'] > min_score]
        top_synonyms = filtered_synonyms[:max_results]
        return top_synonyms
>>
    [response.json()] gives any JSON value, as Python objects: [None],
    [bool], [int], [float] (with the [NaN] and [Infinity] that [json]
    accepts), [str], [list] and [dict].  A finite float is [m * 2 ^ e]. *)
Inductive pyfloat :=
  | PyFinite (m e : Z)
  | PyInf
  | PyNegInf
  | PyNaN.

(** A JSON object keeps its members in the order of the text, repeated
    keys included. *)
#[warnings="-register-all"]
Inductive pyval :=
  | PyNone
  | PyBool (b : bool)
  | PyInt (z : Z)
  | PyFloat (f : pyfloat)
  | PyStr (s : text)
  | PyList (l : list pyval)
  | PyDict (kvs : list (text * pyval)).

(** The [dict] that [json] builds: for a repeated key the last value
    wins, and the key keeps the place of its first occurrence. *)
Fixpoint dict_lookup (k : text) (kvs : list (text * pyval)) : option pyval :=
  match kvs with
  | [] => None
  | (k', v) :: r =>
      match dict_lookup k r with
      | Some v' => Some v'
      | None => if decide (k = k') then Some v else None
      end
  end.

Fixpoint dict_keys_from (seen : list text) (kvs : list (text * pyval)) : list text :=
  match kvs with
  | [] => []
  | (k, _) :: r =>
      if decide (k ∈ seen) then dict_keys_from seen r else k :: dict_keys_from (k :: seen) r
  end.

(** [for item in data]: the elements of a list, the keys of a dict, the
    characters of a str; the other values are not iterable
    ([TypeError]). *)
Definition py_iter (v : pyval) : option (list pyval) :=
  match v with
  | PyList l => Some l
  | PyDict kvs => Some (map PyStr (dict_keys_from [] kvs))
  | PyStr s => Some (map (λ c, PyStr [c]) s)
  | _ => None
  end.

(** [key in s] for two [str]: [key] is a factor of [s]. *)
Fixpoint py_substring (key s : text) : bool :=
  py_startswith s key ||
  match s with
  | [] => false
  | _ :: s' => py_substring key s'
  end.

(** [key in v] for a [str] [key]: a key of a dict, an element of a list
    equal to [key], a factor of a str; [None] stands for the
    [TypeError] of the other values. *)
Definition py_contains (key : text) (v : pyval) : option bool :=
  match v with
  | PyDict kvs => Some (bool_decide (is_Some (dict_lookup key kvs)))
  | PyList l => Some (existsb (λ x, match x with PyStr s => bool_decide (s = key) | _ => false end) l)
  | PyStr s => Some (py_substring key s)
  | _ => None
  end.

Inductive request_error :=
  | ConnectionError
  | HTTPError (code : Z)
  | JSONDecodeError
  | KeyError (key : text)
  | TypeError.

(** [v[key]] for a [str] [key]: only a dict has it; a list or a str
    wants an integer index, the other values are not subscriptable. *)
Definition py_getitem (v : pyval) (key : text) : request_error + pyval :=
  match v with
  | PyDict kvs =>
      match dict_lookup key kvs with
      | Some x => inr x
      | None => inl (KeyError key)
      end
  | _ => inl TypeError
  end.

(** [f > z] for a float and an int, compared exactly as Python does. *)
Definition float_gt (f : pyfloat) (z : Z) : bool :=
  match f with
  | PyFinite m e =>
      if (0 <=? e)%Z then (z <? m * 2 ^ e)%Z else (z * 2 ^ (- e) <? m)%Z
  | PyInf => true
  | PyNegInf => false
  | PyNaN => false
  end.

(** [v > min_score] for an int [min_score]; [None] stands for the
    [TypeError] of a value that is not a number. *)
Definition py_gt (v : pyval) (z : Z) : option bool :=
  match v with
  | PyBool b => Some (z <? if b then 1 else 0)%Z
  | PyInt n => Some (z <? n)%Z
  | PyFloat f => Some (float_gt f z)
  | _ => None
  end.

(** The list comprehension, evaluated item after item: the test
    ['score' in item], then [item['score'] > min_score], then
    [item['word']]. *)
Fixpoint filter_items (min_score : Z) (items : list pyval) : request_error + list pyval :=
  match items with
  | [] => inr []
  | item :: rest =>
      match py_contains (str "score") item with
      | None => inl TypeError
      | Some false => filter_items min_score rest
      | Some true =>
          match py_getitem item (str "score") with
          | inl e => inl e
          | inr s =>
              match py_gt s min_score with
              | None => inl TypeError
              | Some false => filter_items min_score rest
              | Some true =>
                  match py_getitem item (str "word") with
                  | inl e => inl e
                  | inr w =>
                      match filter_items min_score rest with
                      | inl e => inl e
                      | inr ws => inr (w :: ws)
                      end
                  end
              end
          end
      end
  end.

Definition filtered_synonyms (min_score : Z) (data : pyval) : request_error + list pyval :=
  match py_iter data with
  | None => inl TypeError
  | Some items => filter_items min_score items
  end.

(** [json_body] is [None] when the body is not JSON. *)
Record response := mk_response { status_code : Z; json_body : option pyval }.

(** [response.raise_for_status()] of requests: client and server errors. *)
Definition raise_for_status (r : response) : option request_error :=
  if (400 <=? status_code r)%Z && (status_code r <? 600)%Z
  then Some (HTTPError (status_code r)) else None.

(** Python's slice [l[:n]]: a negative [n] counts from the end. *)
Definition slice_upto {A} (l : list A) (n : Z) : list A :=
  take (Z.to_nat (if (0 <=? n)%Z then n else (Z.of_nat (length l) + n)%Z)) l.

(** [fetch word] is the answer of the API to the request for [word],
    [None] when the request fails (no connection, a timeout, ...). *)
Definition get_synonyms (fetch : text → option response) (word : text)
    (min_score max_results : Z) : request_error + list pyval :=
  match fetch word with
  | None => inl ConnectionError
  | Some response =>
      match raise_for_status response with
      | Some e => inl e
      | None =>
          match json_body response with
          | None => inl JSONDecodeError
          | Some data =>
              match filtered_synonyms min_score data with
              | inl e => inl e
              | inr ws => inr (slice_upto ws max_results)
              end
          end
      end
  end.

(** The items of the answer documented by the API: objects whose
    ["score"], when there is one, is a number. *)
Definition py_number (v : pyval) : bool :=
  match v with PyInt _ | PyFloat _ => true | _ => false end.

Definition api_item (item : pyval) : Prop :=
  ∃ kvs, item = PyDict kvs ∧
    ∀ s, dict_lookup (str "score") kvs = Some s → py_number s = true.

(** The words of the objects scoring above [min_score], in the order of
    the answer (the list the comprehension builds when none of them lacks
    its word). *)
Definition scored_words (min_score : Z) (data : list pyval) : list pyval :=
  omap (λ item, match item with
                | PyDict kvs =>
                    match dict_lookup (str "score") kvs with
                    | Some s => if bool_decide (py_gt s min_score = Some true)
                                then dict_lookup (str "word") kvs else None
                    | None => None
                    end
                | _ => None
                end) data.

(** An object that the comprehension keeps but that has no word. *)
Definition wordless_scored (min_score : Z) (item : pyval) : Prop :=
  ∃ kvs s, item = PyDict kvs ∧ dict_lookup (str "score") kvs = Some s ∧
    py_gt s min_score = Some true ∧ dict_lookup (str "word") kvs = None.

(** ** The [if GET_SYNONYMS:] script

<<
    with open(os.path.join(WORDS_DIR, f"questions_and_answers_{LANGUAGE}.tsv"), 'r', encoding='utf-8') as file:
        content = file.readlines()
    ignoreSymbols = [line.removesuffix("\n") for line in content[:2]]
    questions = [line.split('\t')[1] for line in content if not line.startswith(COMMENT_CHARS) and not all(char in ['\n', ' ', '\r'] for char in line) and len(line.split('\t')) > 1]
    words = {normalize(word) for word in " ".join(questions).split()}
    words = {word for word in words if word.strip() and len(word) > 0}
    for s in ignoreSymbols:
        if s in words:
            words.remove(s)
    contentToWrite = ""
    for word in words:
        synonyms = datamuse_service.get_synonyms(word)
        contentToWrite += word + "\t" + "\t".join(synonyms) + "\n"
    with open(os.path.join(SYNONYMS_DIR, f"synonyms_{LANGUAGE}.tsv"), 'w', encoding='utf-8') as file:
        file.write(contentToWrite)
>>  *)
Definition COMMENT_CHARS : text := [47; 47]%N.
Definition tab_t : text := [9%N].
Definition newline_t : text := [10%N].

Definition ignoreSymbols (content : list text) : list text :=
  map (λ line, py_removesuffix line newline_t) (take 2 content).

Definition is_blank (line : text) : bool :=
  forallb (λ c, bool_decide (c ∈ [10; 32; 13]%N)) line.

Definition is_question_line (line : text) : bool :=
  negb (py_startswith line COMMENT_CHARS) && negb (is_blank line) &&
  (1 <? length (py_split_on 9 line)).

Definition questions (content : list text) : list text :=
  map (λ line, default [] (py_split_on 9 line !! 1)) (List.filter is_question_line content).

Definition remove_ignored (words : gset text) (ignore : list text) : gset text :=
  foldl (λ ws s, if decide (s ∈ ws) then ws ∖ {[s]} else ws) words ignore.

Definition words_of (str_lower : text → text) (content : list text) : gset text :=
  let words : gset text :=
    list_to_set (map (normalize str_lower) (py_split_ws (py_join [space] (questions content)))) in
  let words := filter (λ word, py_strip word ≠ [] ∧ 0 < length word) words in
  remove_ignored words (ignoreSymbols content).

(** The iteration order of a [set] of [str]: some listing of its
    elements, each once. *)
Record text_set_order := {
  list_of_tset :> gset text → list text;
  list_of_tset_NoDup X : NoDup (list_of_tset X);
  list_of_tset_elem X x : x ∈ list_of_tset X ↔ x ∈ X
}.

Definition text_set_elements : text_set_order :=
  {| list_of_tset X := elements X;
     list_of_tset_NoDup := NoDup_elements;
     list_of_tset_elem X x := elem_of_elements X x |}.

(** ["\t".join(synonyms)] needs every synonym to be a [str]. *)
Fixpoint py_strs (vs : list pyval) : option (list text) :=
  match vs with
  | [] => Some []
  | PyStr s :: vs' => (λ ss, s :: ss) <$> py_strs vs'
  | _ :: _ => None
  end.

Inductive script_error :=
  | QuestionsReadError
  | RequestFailed (e : request_error)
  | JoinTypeError
  | WriteFailed.

(** The loop [for word in words:] building [contentToWrite]. *)
Fixpoint synonym_lines (fetch : text → option response) (ws : list text)
    : script_error + text :=
  match ws with
  | [] => inr []
  | word :: ws' =>
      match get_synonyms fetch word 500 10 with
      | inl e => inl (RequestFailed e)
      | inr synonyms =>
          match py_strs synonyms with
          | None => inl JoinTypeError
          | Some ss =>
              match synonym_lines fetch ws' with
              | inl e => inl e
              | inr rest => inr (word ++ tab_t ++ py_join tab_t ss ++ newline_t ++ rest)
              end
          end
      end
  end.

(** [questions_file] is the content of the questions file, [None] when it
    cannot be opened or decoded; [out_writable] tells whether the
    synonyms file can be opened for writing.  The result is the content
    written to the synonyms file, or the exception that stops the
    script. *)
Definition get_synonyms_script (str_lower : text → text) (tso : text_set_order)
    (fetch : text → option response) (questions_file : option text) (out_writable : bool)
    : script_error + text :=
  match questions_file with
  | None => inl QuestionsReadError
  | Some raw =>
      let content := readlines_t raw in
      match synonym_lines fetch (tso (words_of str_lower content)) with
      | inl e => inl e
      | inr contentToWrite => if out_writable then inr contentToWrite else inl WriteFailed
      end
  end.

(** ** The [if GROUP_SYNONYMS:] loop

<<
    for filename in os.listdir(SYNONYMS_DIR):
        if filename.endswith(".csv") or filename.endswith(".tsv"):
            group_synonyms(filename)
            print(f"Synonyms in {filename} have been grouped")
        else:
            print(f"{filename} is an invalid file extension. Only .csv and .tsv files are allowed")
>>
    A file of the directory: its content ([None] when it cannot be opened
    or decoded) and whether it can be opened for writing.  A name that
    the directory lacks cannot be opened. *)
Record sfile := mk_sfile { sf_contents : option text; sf_writable : bool }.

Definition file_contents (dir : gmap text sfile) (f : text) : option text :=
  dir !! f ≫= sf_contents.

Definition file_writable (dir : gmap text sfile) (f : text) : bool :=
  default false (sf_writable <$> dir !! f).

(** The loop returns the new directory and the printed lines, or the
    exception that stops it with the directory and what was printed
    so far. *)
Inductive group_all_result :=
  | GroupDone (dir : gmap text sfile) (printed : list text)
  | GroupRaised (e : py_exception) (dir : gmap text sfile) (printed : list text).

Definition result_dir (r : group_all_result) : gmap text sfile :=
  match r with GroupDone dir _ => dir | GroupRaised _ dir _ => dir end.

Fixpoint group_all (so : set_order) (str_lower : text → text) (names : list text)
    (dir : gmap text sfile) (printed : list text) : group_all_result :=
  match names with
  | [] => GroupDone dir printed
  | filename :: names' =>
      if py_endswith filename (str ".csv") || py_endswith filename (str ".tsv") then
        match group_synonyms so str_lower filename (file_contents dir filename)
                (file_writable dir filename) with
        | Written out =>
            group_all so str_lower names' (<[filename := mk_sfile (Some out) true]> dir)
              (printed ++ [str "Synonyms in " ++ filename ++ str " have been grouped"])
        | Raised e => GroupRaised e dir printed
        | NoResult => GroupDone dir printed
        end
      else
        group_all so str_lower names' dir
          (printed ++ [filename ++ str " is an invalid file extension. Only .csv and .tsv files are allowed"])
  end.
(** ** Lemmas on [normalize] *)

(** The characters that [normalize] turns into a word boundary. *)
Definition is_separator (c : N) : bool :=
  py_isspace c || bool_decide (c ∈ PUNCTUATION_TO_REPLACE_WITH_SPACE).

Lemma removed_not_separator (c : N) :
  c ∈ PUNCTUATION_TO_REMOVE → is_separator c = false.
Proof.
  unfold PUNCTUATION_TO_REMOVE.
  intros Hc. repeat (apply elem_of_cons in Hc as [->|Hc]; [reflexivity|]).
  by apply not_elem_of_nil in Hc.
Qed.

Lemma separator_not_removed (c : N) :
  is_separator c = true → c ∉ PUNCTUATION_TO_REMOVE.
Proof. intros Hs Hc. rewrite removed_not_separator in Hs by done. done. Qed.

Lemma replace_not_removed (c : N) :
  c ∈ PUNCTUATION_TO_REPLACE_WITH_SPACE → c ∉ PUNCTUATION_TO_REMOVE.
Proof.
  intros Hc. apply separator_not_removed. unfold is_separator.
  rewrite bool_decide_eq_true_2 by done. apply orb_true_r.
Qed.

Lemma remove_punctuation_app (a b : text) :
  remove_punctuation (a ++ b) = remove_punctuation a ++ remove_punctuation b.
Proof. apply List.filter_app. Qed.

Lemma replace_punctuation_app (a b : text) :
  replace_punctuation (a ++ b) = replace_punctuation a ++ replace_punctuation b.
Proof. apply map_app. Qed.

Lemma remove_punctuation_separators (r : text) :
  (∀ c, c ∈ r → is_separator c = true) → remove_punctuation r = r.
Proof.
  induction r as [|c r IH]; intros Hr; [done|]. simpl.
  rewrite bool_decide_eq_false_2 by (apply separator_not_removed, Hr; left).
  simpl. f_equal. apply IH. intros d Hd. apply Hr. by right.
Qed.

Lemma replace_punctuation_separators (r : text) :
  (∀ c, c ∈ r → is_separator c = true) →
  ∀ c, c ∈ replace_punctuation r → py_isspace c = true.
Proof.
  intros Hr c Hc. apply list_elem_of_fmap in Hc as (d & -> & Hd).
  case_bool_decide; [reflexivity|].
  specialize (Hr d Hd). unfold is_separator in Hr.
  rewrite bool_decide_eq_false_2 in Hr by done. by rewrite orb_false_r in Hr.
Qed.

Lemma collapse_whitespace_space (b : bool) (x y : text) c :
  py_isspace c = true →
  collapse_whitespace b (x ++ c :: y) = collapse_whitespace b (x ++ space :: y).
Proof.
  intros Hc. revert b. induction x as [|d x IH]; intros b; simpl.
  - by rewrite Hc.
  - destruct (py_isspace d), b; by rewrite IH.
Qed.

Lemma collapse_whitespace_drop (b : bool) (x y : text) c1 c2 :
  py_isspace c1 = true → py_isspace c2 = true →
  collapse_whitespace b (x ++ c1 :: c2 :: y) = collapse_whitespace b (x ++ c2 :: y).
Proof.
  intros H1 H2. revert b. induction x as [|d x IH]; intros b; simpl.
  - rewrite H1, H2. by destruct b.
  - destruct (py_isspace d), b; by rewrite IH.
Qed.

Lemma collapse_whitespace_run (b : bool) (x y r : text) :
  r ≠ [] → (∀ c, c ∈ r → py_isspace c = true) →
  collapse_whitespace b (x ++ r ++ y) = collapse_whitespace b (x ++ [space] ++ y).
Proof.
  induction r as [|c r IH]; intros Hne Hr; [done|].
  destruct r as [|c2 r].
  - simpl. apply collapse_whitespace_space, Hr. left.
  - simpl. rewrite collapse_whitespace_drop; [|apply Hr; left|apply Hr; right; left].
    apply IH; [done|]. intros d Hd. apply Hr. by right.
Qed.

Lemma py_lstrip_space (x : text) : py_lstrip (space :: x) = py_lstrip x.
Proof. reflexivity. Qed.

Lemma py_lstrip_collapse (b : bool) (t : text) :
  py_lstrip (collapse_whitespace b t) = py_lstrip (collapse_whitespace true t).
Proof. destruct t as [|c t]; simpl; [done|]. by destruct (py_isspace c), b. Qed.

Lemma py_lstrip_collapse_run (b : bool) (r u : text) :
  (∀ c, c ∈ r → py_isspace c = true) →
  py_lstrip (collapse_whitespace b (r ++ u)) = py_lstrip (collapse_whitespace b u).
Proof.
  revert b. induction r as [|c r IH]; intros b Hr; [done|].
  simpl. rewrite (Hr c) by left.
  destruct b; [|rewrite py_lstrip_space];
    rewrite IH by (intros d Hd; apply Hr; by right);
    symmetry; apply py_lstrip_collapse.
Qed.

Lemma collapse_whitespace_spaces (r : text) :
  (∀ c, c ∈ r → py_isspace c = true) →
  collapse_whitespace true r = [] ∧
  (collapse_whitespace false r = [] ∨ collapse_whitespace false r = [space]).
Proof.
  induction r as [|c r IH]; intros Hr; [split; [done|by left]|]. simpl.
  rewrite (Hr c) by left.
  destruct IH as [-> _]; [intros d Hd; apply Hr; by right|]. split; [done|by right].
Qed.

Lemma collapse_whitespace_run_end (b : bool) (u r : text) :
  (∀ c, c ∈ r → py_isspace c = true) →
  collapse_whitespace b (u ++ r) = collapse_whitespace b u ∨
  collapse_whitespace b (u ++ r) = collapse_whitespace b u ++ [space].
Proof.
  intros Hr. revert b. induction u as [|c u IH]; intros b; simpl.
  - destruct (collapse_whitespace_spaces r Hr) as [H1 [H2|H2]]; destruct b;
      rewrite ?H1, ?H2; first [by left|by right].
  - destruct (py_isspace c), b;
      [ apply IH
      | destruct (IH true) as [-> | ->]; [left|right]; reflexivity
      | destruct (IH false) as [-> | ->]; [left|right]; reflexivity
      | destruct (IH false) as [-> | ->]; [left|right]; reflexivity ].
Qed.

Lemma py_strip_snoc_space (v : text) :
  py_rstrip (py_lstrip (v ++ [space])) = py_rstrip (py_lstrip v).
Proof.
  rewrite py_lstrip_app. destruct (py_lstrip v) as [|c w]; [reflexivity|].
  unfold py_rstrip. rewrite reverse_app. reflexivity.
Qed.
(** A space is never followed by a space. *)
Fixpoint no_double_space (s : text) : bool :=
  match s with
  | c :: ((d :: _) as r) => negb (py_isspace c && py_isspace d) && no_double_space r
  | _ => true
  end.

Lemma no_double_space_app_l (w k : text) :
  no_double_space (w ++ k) = true → no_double_space w = true.
Proof.
  induction w as [|c w IH]; [done|]. destruct w as [|d w]; [done|].
  simpl. intros [H1 H2]%andb_prop. rewrite H1. by apply IH.
Qed.

Lemma no_double_space_app_r (w k : text) :
  no_double_space (k ++ w) = true → no_double_space w = true.
Proof.
  induction k as [|c k IH]; [done|]. intros H. apply IH.
  destruct k as [|d k]; simpl in *.
  - destruct w; [done|]. by apply andb_prop in H as [_ H].
  - by apply andb_prop in H as [_ H].
Qed.

Lemma collapse_whitespace_head (u : text) c :
  head (collapse_whitespace true u) = Some c → py_isspace c = false.
Proof.
  induction u as [|d u IH]; simpl; [done|].
  destruct (py_isspace d) eqn:E; [done|]. simpl. intros [= <-]. done.
Qed.

Lemma collapse_whitespace_no_double (b : bool) (u : text) :
  no_double_space (collapse_whitespace b u) = true.
Proof.
  revert b. induction u as [|c u IH]; intros b; simpl; [done|].
  destruct (py_isspace c) eqn:E; [destruct b; [apply IH|]|];
    simpl; destruct (collapse_whitespace _ u) as [|d w] eqn:Hc; try done;
    apply andb_true_intro; split; try (rewrite <- Hc; apply IH).
  - rewrite (collapse_whitespace_head u d) by (by rewrite Hc).
    by rewrite ?andb_false_r.
  - by rewrite E.
Qed.

Lemma collapse_whitespace_chars (b : bool) (u : text) c :
  c ∈ collapse_whitespace b u → c = space ∨ (c ∈ u ∧ py_isspace c = false).
Proof.
  revert b. induction u as [|d u IH]; intros b; simpl.
  - by intros ?%not_elem_of_nil.
  - destruct (py_isspace d) eqn:E; [destruct b|].
    + intros [? | [? ?]]%IH; [by left|right; split; [by right|done]].
    + intros [->|[? | [? ?]]%IH]%elem_of_cons; [by left|by left|].
      right; split; [by right|done].
    + intros [->|[? | [? ?]]%IH]%elem_of_cons; [right; split; [left|done]|by left|].
      right; split; [by right|done].
Qed.

Lemma space_not_punctuation :
  (space ∉ PUNCTUATION_TO_REMOVE) ∧ (space ∉ PUNCTUATION_TO_REPLACE_WITH_SPACE).
Proof.
  split; [apply (bool_decide_eq_false_1 (space ∈ PUNCTUATION_TO_REMOVE))|
          apply (bool_decide_eq_false_1 (space ∈ PUNCTUATION_TO_REPLACE_WITH_SPACE))];
    vm_compute; reflexivity.
Qed.

Lemma collapse_whitespace_id (t : text) :
  (∀ c, c ∈ t → py_isspace c = false) → collapse_whitespace false t = t.
Proof.
  induction t as [|c t IH]; intros Ht; [done|]. simpl.
  rewrite (Ht c) by left. f_equal. apply IH. intros d Hd. apply Ht. by right.
Qed.

Lemma remove_punctuation_id (t : text) :
  (∀ c, c ∈ t → c ∉ PUNCTUATION_TO_REMOVE) → remove_punctuation t = t.
Proof.
  induction t as [|c t IH]; intros Ht; [done|]. simpl.
  rewrite bool_decide_eq_false_2 by (apply Ht; left). simpl.
  f_equal. apply IH. intros d Hd. apply Ht. by right.
Qed.

Lemma replace_punctuation_id (t : text) :
  (∀ c, c ∈ t → c ∉ PUNCTUATION_TO_REPLACE_WITH_SPACE) → replace_punctuation t = t.
Proof.
  induction t as [|c t IH]; intros Ht; [done|]. simpl.
  rewrite bool_decide_eq_false_2 by (apply Ht; left).
  f_equal. apply IH. intros d Hd. apply Ht. by right.
Qed.

Lemma punctuation_chars (t : text) c :
  c ∈ replace_punctuation (remove_punctuation t) →
  (c ∉ PUNCTUATION_TO_REMOVE) ∧ (c ∉ PUNCTUATION_TO_REPLACE_WITH_SPACE).
Proof.
  intros (d & -> & Hd)%list_elem_of_fmap.
  unfold remove_punctuation in Hd. apply list_elem_of_In, List.filter_In in Hd.
  destruct Hd as [_ Hd]. apply negb_true_iff, bool_decide_eq_false in Hd.
  case_bool_decide; [apply space_not_punctuation|by split].
Qed.

(** The shape of what [normalize] lowercases. *)
Definition normal_form (s : text) : Prop :=
  (∀ c, c ∈ s → (c ∉ PUNCTUATION_TO_REMOVE) ∧ (c ∉ PUNCTUATION_TO_REPLACE_WITH_SPACE) ∧
                (py_isspace c = true → c = space)) ∧
  no_double_space s = true ∧
  (∀ c, head s = Some c → py_isspace c = false) ∧
  (∀ c, last s = Some c → py_isspace c = false).

(** ** Lemmas on the script *)

Lemma py_split_ws_space c (r : text) :
  py_isspace c = true → py_split_ws (c :: r) = py_split_ws r.
Proof. intros H. simpl. rewrite H. reflexivity. Qed.

Lemma py_split_ws_nonspace c (r : text) :
  py_isspace c = false →
  py_split_ws (c :: r) =
    match r with
    | d :: _ =>
        if py_isspace d then [c] :: py_split_ws r
        else match py_split_ws r with
             | w :: ws => (c :: w) :: ws
             | [] => [[c]]
             end
    | [] => [[c]]
    end.
Proof. intros H. simpl. rewrite H. reflexivity. Qed.

Lemma py_split_ws_cons_nonspace c (r : text) :
  py_isspace c = false → ∃ w ws, py_split_ws (c :: r) = w :: ws.
Proof.
  intros H. rewrite py_split_ws_nonspace by done.
  destruct r as [|d r]; [eauto|]. destruct (py_isspace d); [eauto|].
  destruct (py_split_ws (d :: r)); eauto.
Qed.

Lemma py_split_ws_app_space (a b : text) c :
  py_isspace c = true → py_split_ws (a ++ c :: b) = py_split_ws a ++ py_split_ws b.
Proof.
  intros Hc. induction a as [|x a IH]; [by apply py_split_ws_space|].
  cbn [app]. destruct (py_isspace x) eqn:Ex.
  { rewrite !py_split_ws_space by done. exact IH. }
  rewrite !py_split_ws_nonspace by done.
  destruct a as [|y a]; cbn [app].
  - rewrite Hc, py_split_ws_space by done. reflexivity.
  - cbn [app] in IH. rewrite IH.
    destruct (py_isspace y) eqn:Ey; [reflexivity|].
    destruct (py_split_ws_cons_nonspace y a Ey) as (w & ws & ->). reflexivity.
Qed.

Lemma py_split_ws_join (qs : list text) tok :
  tok ∈ py_split_ws (py_join [space] qs) ↔ ∃ q, q ∈ qs ∧ tok ∈ py_split_ws q.
Proof.
  induction qs as [|q qs IH].
  - simpl. split; [by intros ?%not_elem_of_nil|]. intros (q & Hq & _).
    by apply not_elem_of_nil in Hq.
  - destruct qs as [|q' qs].
    + simpl. split; [intros H; exists q; split; [left|done]|].
      intros (q0 & Hq0 & H). apply list_elem_of_singleton in Hq0. by subst.
    + change (py_join [space] (q :: q' :: qs)) with (q ++ space :: py_join [space] (q' :: qs)).
      rewrite py_split_ws_app_space by reflexivity.
      rewrite elem_of_app, IH. split.
      * intros [H | (q0 & Hq0 & H)]; [exists q; split; [left|done]|].
        exists q0. split; [by right|done].
      * intros (q0 & [->|Hq0]%elem_of_cons & H); [by left|]. right. eauto.
Qed.

Lemma remove_ignored_spec (W : gset text) (ignore : list text) x :
  x ∈ remove_ignored W ignore ↔ x ∈ W ∧ x ∉ ignore.
Proof.
  unfold remove_ignored. revert W. induction ignore as [|s ignore IH]; intros W; simpl.
  - split; [intros H; split; [done|by intros ?%not_elem_of_nil]|by intros [? ?]].
  - rewrite IH. rewrite elem_of_cons.
    destruct (decide (s ∈ W)); set_solver.
Qed.

Lemma questions_spec (content : list text) q :
  q ∈ questions content ↔
  ∃ line, line ∈ content ∧ is_question_line line = true ∧
          q = default [] (py_split_on 9 line !! 1).
Proof.
  unfold questions. rewrite list_elem_of_fmap. split.
  - intros (line & -> & Hl). apply list_elem_of_In, List.filter_In in Hl as [Hl Hq].
    exists line. split; [by apply list_elem_of_In|done].
  - intros (line & Hl & Hq & ->). exists line. split; [done|].
    apply list_elem_of_In, List.filter_In. split; [by apply list_elem_of_In|done].
Qed.

(** The text written for the words [ws] and their synonyms [syns]. *)
Definition synonym_line (word : text) (synonyms : list text) : text :=
  word ++ tab_t ++ py_join tab_t synonyms ++ newline_t.


Lemma py_strs_spec (vs : list pyval) ss : py_strs vs = Some ss ↔ vs = map PyStr ss.
Proof.
  revert ss. induction vs as [|v vs IH]; intros ss; simpl.
  - split; [intros [= <-]; done|]. by destruct ss.
  - destruct v; try (split; [done|]; destruct ss; simpl; congruence).
    destruct (py_strs vs) as [ss'|] eqn:Hs; simpl.
    + split.
      * intros [= <-]. simpl. f_equal. by apply IH.
      * destruct ss as [|s' ss]; [done|]. simpl. intros [= -> Hvs].
        apply IH in Hvs. congruence.
    + split; [done|]. destruct ss as [|s' ss]; [done|]. simpl. intros [= -> Hvs].
      apply IH in Hvs. congruence.
Qed.

Lemma py_strs_map (ss : list text) : py_strs (map PyStr ss) = Some ss.
Proof. by apply py_strs_spec. Qed.

Lemma synonym_lines_spec (fetch : text → option response) (ws : list text) out :
  synonym_lines fetch ws = inr out ↔
  ∃ syns, Forall2 (λ w s, get_synonyms fetch w 500 10 = inr (map PyStr s)) ws syns ∧
          out = mjoin (zip_with synonym_line ws syns).
Proof.
  revert out. induction ws as [|w ws IH]; intros out; simpl.
  - split; [intros [= <-]; exists []; split; [constructor|done]|].
    intros (syns & Hs & ->). apply Forall2_nil_inv_l in Hs as ->. done.
  - destruct (get_synonyms fetch w 500 10) as [e|vs] eqn:Hw.
    + split; [done|]. intros (syns & Hs & _). apply Forall2_cons_inv_l in Hs as (s & ? & Hs & _).
      congruence.
    + destruct (py_strs vs) as [s|] eqn:Hvs.
      2:{ split; [done|]. intros (syns & Hs & _).
          apply Forall2_cons_inv_l in Hs as (s & ? & Hs & _).
          rewrite Hw in Hs. injection Hs as ->.
          assert (H : py_strs (map PyStr s) = Some s) by (by apply py_strs_spec).
          congruence. }
      apply py_strs_spec in Hvs as ->.
      destruct (synonym_lines fetch ws) as [e|rest] eqn:Hr.
      * split; [done|]. intros (syns & Hs & _).
        apply Forall2_cons_inv_l in Hs as (s' & syns' & _ & Hs & ->).
        assert (Hc : inl e = inr (mjoin (zip_with synonym_line ws syns')))
          by (apply IH; eauto). done.
      * split.
        -- intros [= <-]. destruct (proj1 (IH rest) eq_refl) as (syns & Hs & ->).
           exists (s :: syns). split; [by constructor|].
           change (mjoin (?x :: ?l)) with (x ++ mjoin l).
           unfold synonym_line. by rewrite <- !app_assoc.
        -- intros (syns & Hs & ->).
           apply Forall2_cons_inv_l in Hs as (s' & syns' & Hs' & Hs & ->).
           rewrite Hw in Hs'. injection Hs' as Hs'.
           apply (f_equal py_strs) in Hs'. rewrite !py_strs_map in Hs'. injection Hs' as <-.
           assert (Hc : inr rest = inr (mjoin (zip_with synonym_line ws syns')))
             by (apply IH; eauto).
           injection Hc as ->. change (mjoin (?x :: ?l)) with (x ++ mjoin l).
           unfold synonym_line. by rewrite <- !app_assoc.
Qed.

Lemma synonym_lines_error (fetch : text → option response) (ws : list text) e :
  synonym_lines fetch ws = inl e → (∃ e', e = RequestFailed e') ∨ e = JoinTypeError.
Proof.
  induction ws as [|w ws IH]; simpl; [done|].
  destruct (get_synonyms fetch w 500 10); [intros [= <-]; eauto|].
  destruct (py_strs _); [|intros [= <-]; by right].
  destruct (synonym_lines fetch ws); [exact IH|done].
Qed.

(** ** Lemmas on [get_synonyms] *)

Lemma py_number_gt (s : pyval) z : py_number s = true → ∃ b, py_gt s z = Some b.
Proof. destruct s; try discriminate; eauto. Qed.

(** The step of the comprehension on an object of the documented form. *)
Lemma filter_items_api_cons (min_score : Z) item rest :
  api_item item →
  (wordless_scored min_score item ∧ filter_items min_score (item :: rest) = inl (KeyError (str "word"))) ∨
  (¬ wordless_scored min_score item ∧
   filter_items min_score (item :: rest) =
     match filter_items min_score rest with
     | inl e => inl e
     | inr ws => inr (scored_words min_score [item] ++ ws)
     end).
Proof.
  intros (kvs & -> & Hnum). unfold wordless_scored.
  cbn [filter_items py_contains py_getitem scored_words omap].
  destruct (dict_lookup (str "score") kvs) as [s|] eqn:Hs.
  - change (bool_decide (is_Some (Some s))) with true. cbv iota beta.
    destruct (py_number_gt s min_score (Hnum s eq_refl)) as [b Hb]. rewrite Hb.
    destruct b.
    + destruct (dict_lookup (str "word") kvs) as [w|] eqn:Hw.
      * right. split.
        -- intros (kvs' & s' & [= <-] & _ & _ & Hw'). congruence.
        -- unfold scored_words; cbn [omap list_omap]. rewrite Hs, Hb, Hw.
           destruct (filter_items min_score rest); reflexivity.
      * left. split; [|reflexivity]. exists kvs, s. done.
    + right. split.
      * intros (kvs' & s' & [= <-] & Hs' & Hgt & _). congruence.
      * unfold scored_words; cbn [omap list_omap]. rewrite Hs, Hb.
        destruct (filter_items min_score rest); reflexivity.
  - change (bool_decide (is_Some (@None pyval))) with false. cbv iota beta.
    right. split.
    + intros (kvs' & s' & [= <-] & Hs' & _). congruence.
    + unfold scored_words; cbn [omap list_omap]. rewrite Hs.
      destruct (filter_items min_score rest); reflexivity.
Qed.

Lemma scored_words_cons (min_score : Z) item rest :
  scored_words min_score (item :: rest) = scored_words min_score [item] ++ scored_words min_score rest.
Proof. unfold scored_words. cbn [omap list_omap]. by repeat case_match. Qed.

Lemma filter_items_api (min_score : Z) (data : list pyval) ws :
  Forall api_item data →
  filter_items min_score data = inr ws ↔
  (∀ item, item ∈ data → ¬ wordless_scored min_score item) ∧ ws = scored_words min_score data.
Proof.
  revert ws. induction data as [|item data IH]; intros ws Hapi.
  - simpl. split; [intros [= <-]; split; [by intros ? ?%not_elem_of_nil|done]|by intros [_ ->]].
  - apply Forall_cons in Hapi as [Hitem Hapi].
    destruct (filter_items_api_cons min_score item data Hitem) as [[Hw Hrun]|[Hw Hrun]];
      rewrite Hrun.
    + split; [done|]. intros [Hall _]. exfalso. exact (Hall item ltac:(left) Hw).
    + rewrite (scored_words_cons _ item data). destruct (filter_items min_score data) as [e|ws'] eqn:Hd.
      * split; [done|]. intros [Hall _]. exfalso.
        assert (@inl request_error (list pyval) e = inr (scored_words min_score data)) as Hd'.
        { apply (proj2 (IH _ Hapi)). split; [|done].
          intros it Hit. apply Hall. by right. }
        discriminate.
      * destruct (proj1 (IH ws' Hapi) eq_refl) as [Hall ->]. split.
        -- intros [= <-]. split; [|done].
           intros it [->|Hit]%elem_of_cons; [done|by apply Hall].
        -- intros [_ ->]. done.
Qed.

Lemma filter_items_api_error (min_score : Z) (data : list pyval) :
  Forall api_item data → (∃ item, item ∈ data ∧ wordless_scored min_score item) →
  filter_items min_score data = inl (KeyError (str "word")).
Proof.
  induction data as [|item data IH]; intros Hapi (it & Hit & Hw).
  { by apply not_elem_of_nil in Hit. }
  apply Forall_cons in Hapi as [Hitem Hapi].
  destruct (filter_items_api_cons min_score item data Hitem) as [[_ Hrun]|[Hnw Hrun]];
    rewrite Hrun; [done|].
  apply elem_of_cons in Hit as [->|Hit]; [done|].
  by rewrite IH by eauto.
Qed.

(** A one-character [str] holds no [str] of five characters. *)
Lemma py_substring_short (c : N) : py_substring (str "score") [c] = false.
Proof.
  cbn [py_substring]. unfold py_startswith.
  apply orb_false_iff; split; [|apply orb_false_iff; split; [|done]];
    apply bool_decide_eq_false_2; intros [k Hk].
  - injection Hk as _ Hk. discriminate.
  - discriminate.
Qed.

Lemma filter_items_chars (min_score : Z) (s : text) :
  filter_items min_score (map (λ c, PyStr [c]) s) = inr [].
Proof.
  induction s as [|c s IH]; [done|]. simpl map. cbn [filter_items py_contains].
  rewrite py_substring_short. exact IH.
Qed.

(** ** Inputs to run the script on *)

Definition api_object (word : text) (score : Z) : pyval :=
  PyDict [(str "word", PyStr word); (str "score", PyInt score)].

(** An answer whose second object, scoring 700, has no word. *)
Definition key_error_items : list pyval :=
  [api_object [98%N] 900; PyDict [(str "score", PyInt 700)]].

Definition key_error_answer : response := mk_response 200 (Some (PyList key_error_items)).

(** An answer with two words scoring above 500 and one below. *)
Definition count_items : list pyval :=
  [api_object [98%N] 900; api_object [99%N] 800; api_object [100%N] 100].

Definition count_answer : response := mk_response 200 (Some (PyList count_items)).

(** A questions file: two lines of symbols to ignore, a comment, a blank
    line and the question [q1] holding the text [Hello, world!]. *)
Definition demo_questions : text :=
  [63; 10; 33; 10; 47; 47; 32; 99; 10; 32; 10;
   113; 49; 9; 72; 101; 108; 108; 111; 44; 32; 119; 111; 114; 108; 100; 33; 10]%N.

(** The word [Hello]. *)
Definition demo_hello : text := [72; 101; 108; 108; 111]%N.

(** ** Lemmas on the [GROUP_SYNONYMS] loop *)

(** The line the loop prints for a file it gets past. *)
Definition group_message (filename : text) : text :=
  if csv_or_tsv filename then str "Synonyms in " ++ filename ++ str " have been grouped"
  else filename ++ str " is an invalid file extension. Only .csv and .tsv files are allowed".

Lemma file_contents_insert (dir : gmap text sfile) f g x :
  f ≠ g → file_contents (<[g := x]> dir) f = file_contents dir f.
Proof. intros Hne. unfold file_contents. by rewrite lookup_insert_ne by congruence. Qed.

Lemma file_writable_insert (dir : gmap text sfile) f g x :
  f ≠ g → file_writable (<[g := x]> dir) f = file_writable dir f.
Proof. intros Hne. unfold file_writable. by rewrite lookup_insert_ne by congruence. Qed.

Lemma group_all_raised_inv (so : set_order) str_lower names dir printed e dir' p :
  group_all so str_lower names dir printed = GroupRaised e dir' p →
  ∃ n, n ∈ names ∧ csv_or_tsv n = true ∧
    ((e = ReadError ∧ file_contents dir n = None) ∨
     (e = WriteError ∧ is_Some (file_contents dir n) ∧ file_writable dir n = false)).
Proof.
  revert dir printed. induction names as [|a names IH]; intros dir printed; simpl; [done|].
  fold (csv_or_tsv a). destruct (csv_or_tsv a) eqn:Ha.
  - destruct (file_contents dir a) as [c|] eqn:Hd.
    + destruct (file_writable dir a) eqn:Hwr.
      * destruct (group_synonyms_csv_written so str_lower a c Ha) as [out ->].
        intros (n & Hn & Hc & Hcase)%IH. exists n. split; [by right|]. split; [done|].
        destruct (decide (n = a)) as [->|Hne].
        -- exfalso. unfold file_contents, file_writable in Hcase.
           rewrite lookup_insert_eq in Hcase. simpl in Hcase. naive_solver.
        -- by rewrite file_contents_insert, file_writable_insert in Hcase.
      * rewrite group_synonyms_not_writable by done. intros [= <- _ _].
        exists a. split; [left|]. split; [done|]. right. split_and!; [done|by eexists|done].
    + intros [= <- _ _]. exists a. split; [left|]. split; [done|]. by left.
  - intros (n & Hn & Hc & Hcase)%IH. exists n. split; [by right|done].
Qed.

Lemma group_all_dir_inv (so : set_order) str_lower names dir printed f :
  (f ∉ names ∨ csv_or_tsv f = false) →
  result_dir (group_all so str_lower names dir printed) !! f = dir !! f.
Proof.
  revert dir printed. induction names as [|a names IH]; intros dir printed Hf; simpl; [done|].
  assert (Hf' : f ∉ names ∨ csv_or_tsv f = false)
    by (destruct Hf as [Hf|Hf]; [left; intros ?; apply Hf; by right|by right]).
  fold (csv_or_tsv a). destruct (csv_or_tsv a) eqn:Ha; [|by apply IH].
  destruct (group_synonyms so str_lower a _ _) as [out|e|]; simpl; try done.
  rewrite IH by done. apply lookup_insert_ne. intros ->.
  destruct Hf as [Hf|Hf]; [apply Hf; left|congruence].
Qed.

(** A directory with a synonyms file and a text file. *)
Definition demo_dir : gmap text sfile :=
  <[str "a.csv" := mk_sfile (Some (str "X,y" ++ nl)) true]>
    (<[str "b.txt" := mk_sfile (Some (str "z")) true]> ∅).

(** The same directory once the loop has lowercased [a.csv]. *)
Definition demo_dir_after : gmap text sfile :=
  <[str "a.csv" := mk_sfile (Some (str "x,y" ++ nl)) true]> demo_dir.

Definition demo_names : list text := [str "a.csv"; str "b.txt"].

(** ** Lemmas on the number of lines *)

Lemma one_pass_length (so : set_order) (ls ls' : lines) ch :
  one_pass so ls = Ok (ls', ch) → length ls' ≤ length ls.
Proof.
  destruct (for_lines_run so ls (length ls) (pass_init ls) (pass_inv_init so ls))
    as (st & Hrun & Hinv & _); [simpl; lia|].
  unfold one_pass. rewrite Hrun. simpl. intros [= <- _].
  destruct Hinv as [_ _ _ Hlen _]. exact Hlen.
Qed.

Lemma while_changes_length (so : set_order) fuel (ls F : lines) :
  while_changes so fuel ls = Ok F → length F ≤ length ls.
Proof.
  revert ls. induction fuel as [|fuel IH]; intros ls Hrun; simpl in Hrun; [done|].
  destruct (one_pass so ls) as [[ls' []]| |] eqn:Hp; try done.
  - apply one_pass_length in Hp. apply IH in Hrun. lia.
  - injection Hrun as <-. by apply one_pass_length in Hp.
Qed.

(** ** Lemmas on the script *)

Lemma api_object_api_item (w : text) (s : Z) : api_item (api_object w s).
Proof.
  eexists. split; [reflexivity|]. intros s' Hs'. vm_compute in Hs'.
  injection Hs' as <-. reflexivity.
Qed.

Lemma synonym_lines_error_strs (fetch : text → option response) (ws : list text) e :
  (∀ w vs, get_synonyms fetch w 500 10 = inr vs → py_strs vs ≠ None) →
  synonym_lines fetch ws = inl e → ∃ e', e = RequestFailed e'.
Proof.
  intros Hstr. induction ws as [|w ws IH]; simpl; [done|].
  destruct (get_synonyms fetch w 500 10) as [e'|vs] eqn:Hw; [intros [= <-]; eauto|].
  destruct (py_strs vs) eqn:Hvs; [|exfalso; exact (Hstr w vs Hw Hvs)].
  destruct (synonym_lines fetch ws); [exact IH|done].
Qed.

(** ** Lemmas for the claims and their examples *)

(** A rerun of [group_synonyms] on a one-line [.csv] file, for every
    reordering of the distinct words of the line. *)
Ltac tokens_of_file :=
  match goal with
  | |- context [consolidate ?so ?ls] =>
      let v := eval vm_compute in ls in change ls with v
  end.

Ltac one_line_cases so finish :=
  match goal with
  | |- context [consolidate so [?t]] =>
      let q := fresh "q" in let Hq := fresh "Hq" in let Hperm := fresh "Hperm" in
      destruct (consolidate_single so t) as (q & Hq & Hperm); [vm_compute; lia|];
      rewrite Hq;
      let v := eval vm_compute in (permutations (remove_dups t)) in
      change (permutations (remove_dups t)) with v in Hperm;
      repeat (apply elem_of_cons in Hperm as [->|Hperm]; [finish|]);
      by apply not_elem_of_nil in Hperm
  end.

Ltac decide_ascii :=
  match goal with |- ?P => apply (bool_decide_eq_true_1 P) end; vm_compute; reflexivity.

(** * The claims *)

(** C1: when the consolidation of a SynonymFile [ls] ends with [F], every
    line of [F] holds at least two words without repetition, no word is
    in two lines, and two distinct words share a line of [F] exactly when
    a chain of lines of [ls], consecutive ones sharing a word, connects
    them: the lines of [F] are the connected components of at least two
    words, and smaller components are dropped. *)
Theorem consolidate_connected_components (so : set_order) (ls F : lines) :
  consolidate so ls = Ok F →
  (∀ l, l ∈ F → NoDup l ∧ 2 ≤ length l) ∧ disjoint_lines F ∧
  (∀ a b, a ≠ b → together F a b ↔ connected ls a b).
Proof.
  intros Hrun. destruct (consolidate_spec so ls F Hrun) as [Hs Hc].
  split_and!; [apply Hc|apply Hc|]. intros a b Hne. split.
  - intros Hab. apply Hs; [done|]. by apply together_connected.
  - intros Hab. apply converged_connected; [done|]. by apply Hs.
Qed.

Lemma consolidate_connected_components_witness :
  consolidate set_order_last scenario1 = Ok scenario1_out ∧
  ((∀ l, l ∈ scenario1_out → NoDup l ∧ 2 ≤ length l) ∧ disjoint_lines scenario1_out ∧
   (∀ a b, a ≠ b → together scenario1_out a b ↔ connected scenario1 a b)).
Proof.
  assert (H : consolidate set_order_last scenario1 = Ok scenario1_out)
    by (vm_compute; reflexivity).
  split; [exact H|]. exact (consolidate_connected_components set_order_last _ _ H).
Defined.

(** C2: whatever [group_synonyms] writes is the rendering, with the
    file's separator, of a list of lines each holding at least two
    distinct words (no word repeated), and no word lies in two lines. *)
Theorem group_synonyms_output_partition (so : set_order) str_lower fname file writable out :
  group_synonyms so str_lower fname file writable = Written out →
  ∃ sep F, separator_of fname = Some sep ∧ out = render sep F ∧
    (∀ l, l ∈ F → NoDup l ∧ 2 ≤ length l) ∧ disjoint_lines F.
Proof.
  unfold group_synonyms. intros Hrun.
  destruct file as [contents|]; [|done].
  destruct (separator_of fname) as [sep|]; [|done].
  destruct (consolidate so _) as [F| |] eqn:E; try done.
  destruct writable; [|done].
  injection Hrun as <-. exists sep, F. split_and!; [done|done| |].
  - apply (consolidate_spec so _ F E).
  - apply (consolidate_spec so _ F E).
Qed.

Lemma group_synonyms_output_partition_witness :
  group_synonyms set_order_last ascii_str_lower csv_name (Some scenario1_text) true
    = Written scenario1_written ∧
  ∃ sep F, separator_of csv_name = Some sep ∧ scenario1_written = render sep F ∧
    (∀ l, l ∈ F → NoDup l ∧ 2 ≤ length l) ∧ disjoint_lines F.
Proof.
  assert (H : group_synonyms set_order_last ascii_str_lower csv_name (Some scenario1_text) true
              = Written scenario1_written) by (vm_compute; reflexivity).
  split; [exact H|]. exact (group_synonyms_output_partition _ _ _ _ _ _ H).
Defined.

(** C3: in every pass, when the scan of line [i] meets a word already
    processed, the first line containing that word (the line chosen by
    [substitute_synonyms]) lies before line [i], so a line is never
    merged into itself; and the exception of [substitute_synonyms] is
    never raised, whatever the input. *)
Theorem substitute_finds_earlier_line (so : set_order) :
  (∀ ls st l w P,
     rtc (pass_step so) (pass_init ls) st →
     synonymsByLine st !! pos st = Some l → ¬ length l < 2 →
     scan_line (so l) (processedSynonyms st) = Repeated w P →
     ∃ t T, list_find (λ l0, w ∈ l0) (<[pos st := so l]> (synonymsByLine st)) = Some (t, T)
       ∧ t < pos st) ∧
  (∀ fuel ls w, while_changes so fuel ls ≠ SynonymNotFound w).
Proof.
  split.
  - intros ls st l w P Hreach Hl _ Hscan.
    eapply substitute_target_before; [|exact Hl|exact Hscan].
    exact (pass_steps_inv so ls _ _ Hreach (pass_inv_init so ls)).
  - apply while_changes_no_error.
Qed.

Lemma substitute_finds_earlier_line_witness :
  ∃ t T, list_find (λ l0, str "b" ∈ l0)
           (<[1 := set_order_last [str "b"; str "c"]]> [[str "a"; str "b"]; [str "b"; str "c"]])
         = Some (t, T) ∧ t < 1.
Proof.
  apply (proj1 (substitute_finds_earlier_line set_order_last)
           [[str "a"; str "b"]; [str "b"; str "c"]] conflict_state [str "b"; str "c"] (str "b")
           (list_to_set [str "a"; str "b"])).
  - eapply rtc_l; [|apply rtc_refl]. exists [str "a"; str "b"]. split; [reflexivity|].
    vm_compute. reflexivity.
  - reflexivity.
  - simpl. lia.
  - vm_compute. reflexivity.
Defined.

(** C4: the [while changes:] loop ends: some list [F] is returned by a
    pass that changed nothing, within [weight ls + 1] passes, and giving
    the loop more passes changes nothing. *)
Theorem consolidate_terminates (so : set_order) (ls : lines) :
  ∃ F, ∀ fuel, weight ls < fuel → while_changes so fuel ls = Ok F.
Proof.
  destruct (consolidate_ok so ls) as [F HF]. exists F. intros fuel Hfuel.
  eapply while_changes_more_fuel; [exact HF|lia].
Qed.

Lemma consolidate_terminates_witness :
  ∃ F, while_changes set_order_last 100 scenario1 = Ok F.
Proof.
  destruct (consolidate_terminates set_order_last scenario1) as [F HF].
  exists F. apply HF. apply Nat.ltb_lt. vm_compute. reflexivity.
Defined.

(** C6: a word occurs in the result exactly when some input line holds
    it together with a different word; a word all of whose input lines
    have fewer than two distinct words is absent from the result. *)
Theorem consolidate_word_set (so : set_order) (ls F : lines) :
  consolidate so ls = Ok F → ∀ w, occurs F w ↔ has_partner ls w.
Proof. apply consolidate_words. Qed.

Lemma consolidate_word_set_witness :
  consolidate set_order_last scenario1 = Ok scenario1_out ∧
  (occurs scenario1_out (str "animal") ↔ has_partner scenario1 (str "animal")).
Proof.
  assert (H : consolidate set_order_last scenario1 = Ok scenario1_out)
    by (vm_compute; reflexivity).
  split; [exact H|]. exact (consolidate_word_set set_order_last _ _ H (str "animal")).
Defined.

(** C7 (as corrected): [group_synonyms] opens and reads the file before
    it looks at the extension.  For a name ending neither in [.csv] nor
    in [.tsv] whose file could be read, the result is the
    invalid-extension exception whatever the contents (nothing of them is
    processed), and such a name never leads to a written output; a name
    ending in [.csv] gets the comma as separator, one ending in [.tsv]
    the tab. *)
Theorem invalid_extension_raised (so : set_order) :
  (∀ str_lower fname contents writable,
     py_endswith fname (str ".csv") = false → py_endswith fname (str ".tsv") = false →
     group_synonyms so str_lower fname (Some contents) writable = Raised (InvalidExtension fname)) ∧
  (∀ str_lower fname file writable out,
     py_endswith fname (str ".csv") = false → py_endswith fname (str ".tsv") = false →
     group_synonyms so str_lower fname file writable ≠ Written out) ∧
  (∀ fname, py_endswith fname (str ".csv") = true → separator_of fname = Some 44%N) ∧
  (∀ fname, py_endswith fname (str ".tsv") = true → separator_of fname = Some 9%N).
Proof.
  split_and!.
  - intros str_lower fname contents writable Hc Ht. unfold group_synonyms, separator_of.
    by rewrite Hc, Ht.
  - intros str_lower fname [contents|] writable out Hc Ht; unfold group_synonyms, separator_of;
      [by rewrite Hc, Ht|done].
  - intros fname Hc. unfold separator_of. by rewrite Hc.
  - intros fname Ht. unfold separator_of.
    destruct (py_endswith fname (str ".csv")) eqn:Hc; [|by rewrite Ht].
    apply endswith_csv_tsv in Hc. congruence.
Qed.

Lemma invalid_extension_raised_witness :
  group_synonyms set_order_last ascii_str_lower (str "notes.txt") (Some scenario1_text) true
    = Raised (InvalidExtension (str "notes.txt")).
Proof.
  apply (proj1 (invalid_extension_raised set_order_last)); vm_compute; reflexivity.
Defined.

(** C7 fails as stated: when the file cannot be opened (here it does not
    exist), the read error is raised, not the invalid-extension one. *)
Lemma invalid_extension_after_read :
  py_endswith (str "notes.txt") (str ".csv") = false ∧
  py_endswith (str "notes.txt") (str ".tsv") = false ∧
  group_synonyms set_order_last ascii_str_lower (str "notes.txt") None true = Raised ReadError ∧
  group_synonyms set_order_last ascii_str_lower (str "notes.txt") None true
    ≠ Raised (InvalidExtension (str "notes.txt")).
Proof. split_and!; [vm_compute; reflexivity|vm_compute; reflexivity|reflexivity|discriminate]. Qed.

(** ** Runs with different set orders *)

(** C8 fails as stated: two runs on the same file whose sets iterate in
    different orders write different files; the words of a line, and
    even the lines, come out in another order. *)
Lemma runs_differ_in_order :
  group_synonyms set_order_last ascii_str_lower csv_name (Some (str "a,b" ++ nl)) true
    = Written (str "a,b" ++ nl) ∧
  group_synonyms set_order_rev ascii_str_lower csv_name (Some (str "a,b" ++ nl)) true
    = Written (str "b,a" ++ nl) ∧
  group_synonyms set_order_last ascii_str_lower csv_name (Some line_order_text) true
    = Written (str "c,b" ++ nl ++ str "e,d" ++ nl) ∧
  group_synonyms set_order_rev ascii_str_lower csv_name (Some line_order_text) true
    = Written (str "e,d" ++ nl ++ str "c,b" ++ nl).
Proof. split_and!; vm_compute; reflexivity. Qed.

(** C8 (as corrected): two runs on the same file name and contents, with
    any two set orders, end alike: both raise the same exception, or
    both write the same lines taken as sets of words (the order of the
    words in a line and the order of the lines may differ). *)
Theorem runs_agree_up_to_order (so1 so2 : set_order) str_lower fname file writable :
  (∃ e, group_synonyms so1 str_lower fname file writable = Raised e ∧
        group_synonyms so2 str_lower fname file writable = Raised e) ∨
  (∃ sep F1 F2, group_synonyms so1 str_lower fname file writable = Written (render sep F1) ∧
     group_synonyms so2 str_lower fname file writable = Written (render sep F2) ∧
     same_partition F1 F2).
Proof.
  unfold group_synonyms.
  destruct file as [contents|]; [|left; by eexists].
  destruct (separator_of fname) as [sep|]; [|left; by eexists].
  set (ls := map (tokenize str_lower sep) (readlines_t contents)).
  destruct (consolidate_ok so1 ls) as [F1 H1], (consolidate_ok so2 ls) as [F2 H2].
  rewrite H1, H2. destruct writable; [|left; by eexists].
  right. exists sep, F1, F2. split_and!; [done|done|].
  destruct (consolidate_spec so1 ls F1 H1) as [Hs1 Hc1].
  destruct (consolidate_spec so2 ls F2 H2) as [Hs2 Hc2].
  assert (Hs : same_links F1 F2) by (eapply same_links_trans; [apply same_links_sym|]; done).
  split; apply converged_same_lines; try done. by apply same_links_sym.
Qed.

(** ** The empty file *)

(** C9: a [.csv] or [.tsv] file with zero lines is consolidated without
    error into zero lines, which are written when the file can be opened
    for writing. *)
Theorem empty_file_empty_output (so : set_order) str_lower fname sep :
  separator_of fname = Some sep →
  readlines_t [] = [] ∧ group_synonyms so str_lower fname (Some []) true = Written [].
Proof.
  intros Hsep. split; [reflexivity|].
  rewrite (group_synonyms_sep _ _ _ _ _ _ Hsep). reflexivity.
Qed.

Lemma empty_file_empty_output_witness :
  separator_of (str "synonyms.tsv") = Some 9%N ∧
  readlines_t [] = [] ∧
  group_synonyms set_order_rev ascii_str_lower (str "synonyms.tsv") (Some []) true = Written [].
Proof.
  assert (H : separator_of (str "synonyms.tsv") = Some 9%N) by (vm_compute; reflexivity).
  split; [exact H|]. exact (empty_file_empty_output set_order_rev _ _ _ H).
Defined.

(** ** Lines starting with the comment prefix *)

(** C10: [group_synonyms] treats every line of the file alike, lines
    starting with "//" included: each line read is stripped, lowercased
    and split on the separator, two distinct tokens of one line end up
    in one line of the written result, and a word is written exactly
    when some line gives it a distinct partner (a line with a single
    token, comment or not, adds no word of its own). *)
Theorem comment_lines_consolidated (so : set_order) str_lower fname contents sep writable out :
  separator_of fname = Some sep →
  group_synonyms so str_lower fname (Some contents) writable = Written out →
  ∃ F, out = render sep F ∧ converged F ∧
    (∀ l a b, l ∈ readlines_t contents → a ∈ tokenize str_lower sep l →
       b ∈ tokenize str_lower sep l → a ≠ b → together F a b) ∧
    (∀ w, occurs F w ↔ has_partner (map (tokenize str_lower sep) (readlines_t contents)) w).
Proof.
  intros Hsep Hrun. rewrite (group_synonyms_sep _ _ _ _ _ _ Hsep) in Hrun.
  set (ls := map (tokenize str_lower sep) (readlines_t contents)) in *.
  destruct (consolidate so ls) as [F| |] eqn:HF; try discriminate.
  destruct writable; [|discriminate]. injection Hrun as <-.
  destruct (consolidate_spec so ls F HF) as [Hs Hc].
  exists F. split_and!; [done|done| |by apply (consolidate_words so)].
  intros l a b Hl Ha Hb Hne. apply converged_connected; [done|].
  apply (Hs a b Hne), together_connected.
  exists (tokenize str_lower sep l). split; [|done]. by apply list_elem_of_fmap_2.
Qed.

Lemma comment_lines_consolidated_witness :
  separator_of csv_name = Some 44%N ∧
  group_synonyms set_order_last ascii_str_lower csv_name (Some comment_text) true
    = Written (str "//foo,bar,baz" ++ nl) ∧
  map (tokenize ascii_str_lower 44%N) (readlines_t comment_text)
    = [[str "// note"]; [str "//foo"; str "bar"]; [str "bar"; str "baz"]] ∧
  ∃ F, str "//foo,bar,baz" ++ nl = render 44%N F ∧ converged F ∧
    (∀ l a b, l ∈ readlines_t comment_text → a ∈ tokenize ascii_str_lower 44%N l →
       b ∈ tokenize ascii_str_lower 44%N l → a ≠ b → together F a b) ∧
    (∀ w, occurs F w ↔
          has_partner (map (tokenize ascii_str_lower 44%N) (readlines_t comment_text)) w).
Proof.
  assert (Hsep : separator_of csv_name = Some 44%N) by (vm_compute; reflexivity).
  assert (Hrun : group_synonyms set_order_last ascii_str_lower csv_name (Some comment_text) true
    = Written (str "//foo,bar,baz" ++ nl)) by (vm_compute; reflexivity).
  split_and!; [exact Hsep|exact Hrun|vm_compute; reflexivity|].
  exact (comment_lines_consolidated set_order_last _ _ _ _ _ _ Hsep Hrun).
Defined.

(** ** Running [group_synonyms] on its own output *)

(** C5 fails as stated: the file [", x , y ,"] is always written, and
    whatever the set orders of the two runs and whatever [str.lower()]
    (one that agrees with the ASCII lowering on ASCII text, as Python's
    does), a second run on the written file writes another file: the
    written line starts or ends with a word padded with spaces, which
    [strip] takes away when the line is read back. *)
Lemma rerun_changes_output :
  (∀ so1 str_lower, ∃ out,
     group_synonyms so1 str_lower csv_name (Some padded_text) true = Written out) ∧
  (∀ so1 so2 str_lower out, agrees_on_ascii str_lower →
     group_synonyms so1 str_lower csv_name (Some padded_text) true = Written out →
     group_synonyms so2 str_lower csv_name (Some out) true ≠ Written out).
Proof.
  split.
  { intros so1 str_lower. apply group_synonyms_csv_written. vm_compute. reflexivity. }
  intros so1 so2 str_lower out Hlow.
  rewrite group_synonyms_ascii by (exact Hlow || decide_ascii).
  rewrite (group_synonyms_sep _ _ _ _ _ 44%N) by (vm_compute; reflexivity).
  tokens_of_file.
  one_line_cases so1 ltac:(
    intros [= <-];
    rewrite group_synonyms_ascii by (exact Hlow || decide_ascii);
    rewrite (group_synonyms_sep _ _ _ _ _ 44%N) by (vm_compute; reflexivity);
    tokens_of_file;
    one_line_cases so2 ltac:(vm_compute; congruence)).
Qed.

(** C5 (as corrected): take a file that [group_synonyms] rewrites as the
    lines [F], with a [str.lower()] that brings in no line break.  If
    [strip] and [str.lower()] leave every written line as it is, a second
    run on the written file, with any set order [so2], writes the lines
    [map so2 F]: the same lines in the same order, each with the same set
    of words, in the order [so2] iterates them.  When [so2] keeps every
    line of [F] as it is, the second run writes the same file again. *)
Theorem group_synonyms_rerun (so1 so2 : set_order) str_lower fname contents writable out :
  lower_keeps_line_ends str_lower →
  group_synonyms so1 str_lower fname (Some contents) writable = Written out →
  ∃ sep F, separator_of fname = Some sep ∧
    consolidate so1 (map (tokenize str_lower sep) (readlines_t contents)) = Ok F ∧
    out = render sep F ∧
    ((∀ l, l ∈ F → py_strip (py_join [sep] l) = py_join [sep] l ∧
                   str_lower (py_join [sep] l) = py_join [sep] l) →
     group_synonyms so2 str_lower fname (Some out) writable = Written (render sep (map so2 F)) ∧
     ((∀ l, l ∈ F → so2 l = l) →
      group_synonyms so2 str_lower fname (Some out) writable = Written out)).
Proof.
  intros Hlow Hrun. unfold group_synonyms in Hrun.
  destruct (separator_of fname) as [sep|] eqn:Hsep; [|discriminate].
  destruct (consolidate so1 (map (tokenize str_lower sep) (readlines_t contents))) as [F| |] eqn:HF;
    try discriminate.
  destruct writable; [|discriminate]. injection Hrun as <-.
  exists sep, F. split_and!; [done|done|done|]. intros Hfix.
  destruct (consolidate_spec so1 _ F HF) as [_ Hconv].
  pose proof (consolidate_word_chars so1 str_lower sep contents F Hlow HF) as Hwords.
  destruct (separator_chars fname sep Hsep) as [H10 H13].
  assert (Hreread : group_synonyms so2 str_lower fname (Some (render sep F)) true
                      = Written (render sep (map so2 F))).
  { rewrite (group_synonyms_sep _ _ _ _ _ _ Hsep).
    rewrite readlines_render; [|done|done|].
    2:{ intros l w Hl Hw. split; intros Hc;
        destruct (Hwords l w _ Hl Hw Hc) as [(_ & ? & ?) _]; done. }
    rewrite map_map, (map_ext_in _ id).
    2:{ intros l Hl%list_elem_of_In. unfold id. apply tokenize_written_line.
        - destruct (proj1 Hconv l Hl) as [_ H2]. intros ->. simpl in H2. lia.
        - apply (Hfix l Hl).
        - apply (Hfix l Hl).
        - intros w Hw Hc. destruct (Hwords l w _ Hl Hw Hc) as [(? & _) _]. done. }
    rewrite map_id, consolidate_converged by done. reflexivity. }
  split; [done|]. intros Hso2. rewrite Hreread. do 2 f_equal.
  rewrite (map_ext_in _ id); [apply map_id|].
  intros l Hl%list_elem_of_In. apply Hso2, Hl.
Qed.

Lemma group_synonyms_rerun_witness :
  group_synonyms set_order_last ascii_str_lower csv_name (Some scenario1_text) true
    = Written scenario1_written ∧
  group_synonyms set_order_last ascii_str_lower csv_name (Some scenario1_written) true
    = Written scenario1_written.
Proof.
  assert (H : group_synonyms set_order_last ascii_str_lower csv_name (Some scenario1_text) true
                = Written scenario1_written) by (vm_compute; reflexivity).
  split; [exact H|].
  destruct (group_synonyms_rerun set_order_last set_order_last _ _ _ _ _
              ascii_str_lower_keeps_line_ends H)
    as (sep & F & Hsep & HF & _ & Hre).
  vm_compute in Hsep. injection Hsep as <-. vm_compute in HF. injection HF as <-.
  apply Hre.
  - intros l Hl. repeat (apply elem_of_cons in Hl as [->|Hl]; [split; vm_compute; reflexivity|]).
    by apply not_elem_of_nil in Hl.
  - intros l Hl. repeat (apply elem_of_cons in Hl as [->|Hl]; [vm_compute; reflexivity|]).
    by apply not_elem_of_nil in Hl.
Defined.

(** * Further properties of the code *)

(** ** [DatamuseService.get_synonyms] *)

(** For an answer that is a list of objects whose scores are numbers (the
    answers the API documents), [get_synonyms] returns a list exactly when
    no object scoring above [min_score] lacks its word (wherever it stands
    in the answer); the list is then the slice [[:max_results]] of the
    words of the objects scoring above [min_score], in the order of the
    answer. *)
Theorem get_synonyms_success (fetch : text → option response) word min_score
    max_results (r : response) (data : list pyval) (ws : list pyval) :
  fetch word = Some r → ¬ (400 ≤ status_code r < 600)%Z →
  json_body r = Some (PyList data) → Forall api_item data →
  get_synonyms fetch word min_score max_results = inr ws ↔
  (∀ item, item ∈ data → ¬ wordless_scored min_score item) ∧
  ws = slice_upto (scored_words min_score data) max_results.
Proof.
  intros Hr Hst Hd Hapi. unfold get_synonyms, raise_for_status. rewrite Hr.
  assert (Hb : ((400 <=? status_code r)%Z && (status_code r <? 600)%Z) = false).
  { rewrite andb_false_iff, Z.leb_nle, Z.ltb_nlt. lia. }
  rewrite Hb, Hd. unfold filtered_synonyms. cbn [py_iter].
  destruct (filter_items min_score data) as [e|ws'] eqn:Hf.
  - split; [done|]. intros [Hall _]. exfalso.
    assert (Hok : filter_items min_score data = inr (scored_words min_score data))
      by (apply (filter_items_api _ _ _ Hapi); done).
    congruence.
  - apply (filter_items_api _ _ _ Hapi) in Hf as [Hall ->].
    split; [intros [= <-]; done|intros [_ ->]; done].
Qed.

Lemma get_synonyms_success_witness :
  get_synonyms (λ _, Some count_answer) [97%N] 500 10 = inr [PyStr [98%N]; PyStr [99%N]] ↔
  (∀ item, item ∈ count_items → ¬ wordless_scored 500 item) ∧
  [PyStr [98%N]; PyStr [99%N]] = slice_upto (scored_words 500 count_items) 10.
Proof.
  apply (get_synonyms_success (λ _, Some count_answer) _ _ _ count_answer);
    [reflexivity|simpl; lia|reflexivity|].
  repeat (constructor; [apply api_object_api_item|]). constructor.
Defined.

(** A status from 400 to 599 raises [HTTPError] whatever the body. *)
Theorem get_synonyms_http_error (fetch : text → option response) word min_score
    max_results (r : response) :
  fetch word = Some r → (400 ≤ status_code r < 600)%Z →
  get_synonyms fetch word min_score max_results = inl (HTTPError (status_code r)).
Proof.
  intros Hr Hst. unfold get_synonyms, raise_for_status. rewrite Hr.
  assert (Hb : ((400 <=? status_code r)%Z && (status_code r <? 600)%Z) = true).
  { rewrite andb_true_iff, Z.leb_le, Z.ltb_lt. lia. }
  by rewrite Hb.
Qed.

Lemma get_synonyms_http_error_witness :
  get_synonyms (λ _, Some (mk_response 503 None)) [97%N] 500 10 = inl (HTTPError 503).
Proof.
  apply (get_synonyms_http_error (λ _, Some (mk_response 503 None)) [97%N] 500 10
           (mk_response 503 None)); [reflexivity|simpl; lia].
Defined.

(** In an answer that is a list of objects whose scores are numbers, an
    object scoring above [min_score] without a ["word"] raises
    [KeyError], even when [max_results] would cut it off: the whole
    comprehension is built before the slice. *)
Theorem get_synonyms_key_error (fetch : text → option response) word min_score
    max_results (r : response) (data : list pyval) :
  fetch word = Some r → ¬ (400 ≤ status_code r < 600)%Z →
  json_body r = Some (PyList data) → Forall api_item data →
  (∃ item, item ∈ data ∧ wordless_scored min_score item) →
  get_synonyms fetch word min_score max_results = inl (KeyError (str "word")).
Proof.
  intros Hr Hst Hdata Hapi Hbad. unfold get_synonyms, raise_for_status. rewrite Hr.
  assert (Hb : ((400 <=? status_code r)%Z && (status_code r <? 600)%Z) = false).
  { rewrite andb_false_iff, Z.leb_nle, Z.ltb_nlt. lia. }
  rewrite Hb, Hdata. unfold filtered_synonyms. cbn [py_iter].
  by rewrite filter_items_api_error.
Qed.

Lemma get_synonyms_key_error_witness :
  get_synonyms (λ _, Some key_error_answer) [97%N] 500 1 = inl (KeyError (str "word")).
Proof.
  apply (get_synonyms_key_error _ _ _ _ key_error_answer key_error_items);
    [reflexivity|simpl; lia|reflexivity| |].
  - constructor; [apply api_object_api_item|].
    constructor; [|constructor]. eexists. split; [reflexivity|].
    intros s Hs. vm_compute in Hs. injection Hs as <-. reflexivity.
  - exists (PyDict [(str "score", PyInt 700)]). split; [right; left|].
    eexists _, (PyInt 700). split_and!; vm_compute; reflexivity.
Defined.

(** The number of synonyms returned: the list is a prefix of the words
    the comprehension kept, with at most [max_results] of them when
    [max_results ≥ 0], and all of them but the last [k] when
    [max_results = -k < 0]. *)
Theorem get_synonyms_count (fetch : text → option response) word min_score
    max_results (ws : list pyval) :
  get_synonyms fetch word min_score max_results = inr ws →
  ∃ r d ws0, fetch word = Some r ∧ json_body r = Some d ∧
    filtered_synonyms min_score d = inr ws0 ∧
    ws `prefix_of` ws0 ∧
    ((0 ≤ max_results)%Z → length ws = min (Z.to_nat max_results) (length ws0)) ∧
    ((max_results < 0)%Z → length ws = length ws0 - Z.to_nat (- max_results)).
Proof.
  unfold get_synonyms.
  destruct (fetch word) as [r|] eqn:Hr; [|done].
  destruct (raise_for_status r); [done|].
  destruct (json_body r) as [d|] eqn:Hd; [|done].
  destruct (filtered_synonyms min_score d) as [e|ws0] eqn:Hf; [done|].
  intros [= <-]. exists r, d, ws0. unfold slice_upto.
  split_and!; [done|done|done|apply prefix_take| |].
  - intros Hm. rewrite (proj2 (Z.leb_le 0 max_results) Hm), length_take. done.
  - intros Hm. rewrite (proj2 (Z.leb_gt 0 max_results) Hm), length_take. lia.
Qed.

Lemma get_synonyms_count_witness :
  get_synonyms (λ _, Some count_answer) [97%N] 500 (-1) = inr [PyStr [98%N]] ∧
  ∃ r d ws0, Some count_answer = Some r ∧ json_body r = Some d ∧
    filtered_synonyms 500 d = inr ws0 ∧
    [PyStr [98%N]] `prefix_of` ws0 ∧
    ((0 ≤ -1)%Z → length [PyStr [98%N]] = min (Z.to_nat (-1)) (length ws0)) ∧
    ((-1 < 0)%Z → length [PyStr [98%N]] = length ws0 - Z.to_nat (- -1)).
Proof.
  assert (H : get_synonyms (λ _, Some count_answer) [97%N] 500 (-1) = inr [PyStr [98%N]])
    by (vm_compute; reflexivity).
  split; [exact H|].
  exact (get_synonyms_count (λ _, Some count_answer) [97%N] 500 (-1) _ H).
Defined.

(** A body that is not iterable ([null], a number, [true] or [false])
    raises [TypeError]. *)
Theorem get_synonyms_not_iterable (fetch : text → option response) word min_score
    max_results (r : response) (d : pyval) :
  fetch word = Some r → ¬ (400 ≤ status_code r < 600)%Z →
  json_body r = Some d → py_iter d = None →
  get_synonyms fetch word min_score max_results = inl TypeError.
Proof.
  intros Hr Hst Hd Hit. unfold get_synonyms, raise_for_status. rewrite Hr.
  assert (Hb : ((400 <=? status_code r)%Z && (status_code r <? 600)%Z) = false).
  { rewrite andb_false_iff, Z.leb_nle, Z.ltb_nlt. lia. }
  rewrite Hb, Hd. unfold filtered_synonyms. by rewrite Hit.
Qed.

Lemma get_synonyms_not_iterable_witness :
  get_synonyms (λ _, Some (mk_response 200 (Some PyNone))) [97%N] 500 10 = inl TypeError.
Proof.
  apply (get_synonyms_not_iterable _ _ _ _ (mk_response 200 (Some PyNone)) PyNone);
    [reflexivity|simpl; lia|reflexivity|reflexivity].
Defined.

(** A body that is a JSON string gives the empty list: its items are its
    characters, none of which contains ['score']. *)
Theorem get_synonyms_str_body (fetch : text → option response) word min_score
    max_results (r : response) (s : text) :
  fetch word = Some r → ¬ (400 ≤ status_code r < 600)%Z →
  json_body r = Some (PyStr s) →
  get_synonyms fetch word min_score max_results = inr [].
Proof.
  intros Hr Hst Hd. unfold get_synonyms, raise_for_status. rewrite Hr.
  assert (Hb : ((400 <=? status_code r)%Z && (status_code r <? 600)%Z) = false).
  { rewrite andb_false_iff, Z.leb_nle, Z.ltb_nlt. lia. }
  rewrite Hb, Hd. unfold filtered_synonyms. cbn [py_iter].
  rewrite filter_items_chars. unfold slice_upto. by rewrite take_nil.
Qed.

Lemma get_synonyms_str_body_witness :
  get_synonyms (λ _, Some (mk_response 200 (Some (PyStr (str "score"))))) [97%N] 500 10 = inr [].
Proof.
  apply (get_synonyms_str_body _ _ _ _ (mk_response 200 (Some (PyStr (str "score"))))
           (str "score")); [reflexivity|simpl; lia|reflexivity].
Defined.
(** ** [normalize] *)

(** The characters of [PUNCTUATION_TO_REMOVE] are deleted wherever they
    stand: [normalize] gives the same word with or without one of them. *)
Theorem normalize_removes_punctuation (str_lower : text → text) (a b : text) (c : N) :
  c ∈ PUNCTUATION_TO_REMOVE →
  normalize str_lower (a ++ c :: b) = normalize str_lower (a ++ b).
Proof.
  intros Hc. unfold normalize. rewrite !remove_punctuation_app.
  unfold remove_punctuation at 2. simpl. rewrite bool_decide_eq_true_2 by done.
  reflexivity.
Qed.

Lemma normalize_removes_punctuation_witness :
  (39%N ∈ PUNCTUATION_TO_REMOVE) ∧
  normalize (λ t, t) ([100; 111; 110]%N ++ 39%N :: [116%N]) = normalize (λ t, t) ([100; 111; 110] ++ [116])%N.
Proof.
  split; [apply (bool_decide_eq_true_1 (39%N ∈ PUNCTUATION_TO_REMOVE)); vm_compute; reflexivity|].
  apply normalize_removes_punctuation.
  apply (bool_decide_eq_true_1 (39%N ∈ PUNCTUATION_TO_REMOVE)); vm_compute; reflexivity.
Defined.

(** A non-empty run of whitespace and of characters of
    [PUNCTUATION_TO_REPLACE_WITH_SPACE] inside the text acts as one space. *)
Theorem normalize_separator_run (str_lower : text → text) (a r b : text) :
  r ≠ [] → (∀ c, c ∈ r → is_separator c = true) →
  normalize str_lower (a ++ r ++ b) = normalize str_lower (a ++ [space] ++ b).
Proof.
  intros Hne Hr. unfold normalize. do 2 f_equal.
  rewrite !remove_punctuation_app, (remove_punctuation_separators r Hr).
  change (remove_punctuation [space]) with [space].
  rewrite !replace_punctuation_app.
  change (replace_punctuation [space]) with [space].
  apply collapse_whitespace_run.
  - destruct r as [|c r]; [done|discriminate].
  - by apply replace_punctuation_separators.
Qed.

Lemma normalize_separator_run_witness :
  [44; 32; 9]%N ≠ [] ∧ (∀ c, c ∈ [44; 32; 9]%N → is_separator c = true) ∧
  normalize (λ t, t) ([97] ++ [44; 32; 9] ++ [98])%N = normalize (λ t, t) ([97] ++ [space] ++ [98])%N.
Proof.
  assert (Hr : ∀ c, c ∈ [44; 32; 9]%N → is_separator c = true).
  { intros c Hc. repeat (apply elem_of_cons in Hc as [->|Hc]; [reflexivity|]).
    by apply not_elem_of_nil in Hc. }
  split; [done|]. split; [exact Hr|].
  apply normalize_separator_run; [done|exact Hr].
Defined.

(** Whitespace and characters of [PUNCTUATION_TO_REPLACE_WITH_SPACE] at the
    start and at the end of the text do not change the result. *)
Theorem normalize_trims_separators (str_lower : text → text) (r t r' : text) :
  (∀ c, c ∈ r → is_separator c = true) → (∀ c, c ∈ r' → is_separator c = true) →
  normalize str_lower (r ++ t ++ r') = normalize str_lower t.
Proof.
  intros Hr Hr'. unfold normalize. f_equal.
  rewrite !remove_punctuation_app, (remove_punctuation_separators r Hr),
    (remove_punctuation_separators r' Hr'), !replace_punctuation_app.
  unfold py_strip.
  rewrite py_lstrip_collapse_run by (by apply replace_punctuation_separators).
  destruct (collapse_whitespace_run_end false (replace_punctuation (remove_punctuation t))
              (replace_punctuation r') (replace_punctuation_separators r' Hr')) as [-> | ->];
    [done|apply py_strip_snoc_space].
Qed.

Lemma normalize_trims_separators_witness :
  (∀ c, c ∈ [40; 32]%N → is_separator c = true) ∧ (∀ c, c ∈ [63; 41]%N → is_separator c = true) ∧
  normalize (λ t, t) ([40; 32] ++ [104; 105] ++ [63; 41])%N = normalize (λ t, t) [104; 105]%N.
Proof.
  assert (Hr : ∀ c, c ∈ [40; 32]%N → is_separator c = true).
  { intros c Hc. repeat (apply elem_of_cons in Hc as [->|Hc]; [reflexivity|]).
    by apply not_elem_of_nil in Hc. }
  assert (Hr' : ∀ c, c ∈ [63; 41]%N → is_separator c = true).
  { intros c Hc. repeat (apply elem_of_cons in Hc as [->|Hc]; [reflexivity|]).
    by apply not_elem_of_nil in Hc. }
  split; [exact Hr|]. split; [exact Hr'|].
  apply normalize_trims_separators; [exact Hr|exact Hr'].
Defined.

(** What [normalize] lowercases holds no character of either punctuation
    class, no whitespace but single spaces, and no whitespace at its ends. *)
Theorem normalize_normal_form (str_lower : text → text) (t : text) :
  ∃ s, normalize str_lower t = str_lower s ∧ normal_form s.
Proof.
  set (u := replace_punctuation (remove_punctuation t)).
  set (v := collapse_whitespace false u).
  exists (py_strip v). split; [reflexivity|].
  destruct (py_lstrip_suffix v) as [k1 Hk1].
  destruct (py_rstrip_prefix (py_lstrip v)) as [k2 Hk2].
  assert (Hsub : ∀ c, c ∈ py_strip v → c ∈ v).
  { intros c Hc. rewrite Hk1, Hk2. apply elem_of_app. right.
    apply elem_of_app. by left. }
  split; [|split; [|split]].
  - intros c Hc. apply Hsub in Hc.
    apply collapse_whitespace_chars in Hc as [-> | [Hc Hsp]].
    + destruct space_not_punctuation. by split_and!.
    + destruct (punctuation_chars t c Hc). split_and!; [done|done|by rewrite Hsp].
  - unfold py_strip. apply (no_double_space_app_l _ k2). rewrite <- Hk2.
    apply (no_double_space_app_r _ k1). rewrite <- Hk1.
    apply collapse_whitespace_no_double.
  - intros c Hc. apply (py_lstrip_head v). rewrite Hk2. unfold py_strip in Hc.
    destruct (py_rstrip (py_lstrip v)); [done|exact Hc].
  - intros c Hc. unfold py_strip, py_rstrip in Hc. rewrite last_reverse in Hc.
    exact (py_lstrip_head _ c Hc).
Qed.

(** A text without whitespace and without punctuation of either class is
    only lowercased. *)
Theorem normalize_plain_word (str_lower : text → text) (t : text) :
  (∀ c, c ∈ t → is_separator c = false ∧ c ∉ PUNCTUATION_TO_REMOVE) →
  normalize str_lower t = str_lower t.
Proof.
  intros Ht. unfold normalize. f_equal.
  rewrite remove_punctuation_id by (intros c Hc; by apply Ht).
  rewrite replace_punctuation_id.
  2:{ intros c Hc. destruct (Ht c Hc) as [Hs _]. unfold is_separator in Hs.
      apply orb_false_elim in Hs as [_ Hs]. by apply bool_decide_eq_false in Hs. }
  assert (Hsp : ∀ c, c ∈ t → py_isspace c = false).
  { intros c Hc. destruct (Ht c Hc) as [Hs _]. unfold is_separator in Hs.
    by apply orb_false_elim in Hs as [Hs _]. }
  rewrite collapse_whitespace_id by exact Hsp. by apply py_strip_id.
Qed.

Lemma normalize_plain_word_witness :
  (∀ c, c ∈ [104; 105]%N → is_separator c = false ∧ c ∉ PUNCTUATION_TO_REMOVE) ∧
  normalize (λ t, t) [104; 105]%N = [104; 105]%N.
Proof.
  assert (Ht : ∀ c, c ∈ [104; 105]%N → is_separator c = false ∧ c ∉ PUNCTUATION_TO_REMOVE).
  { intros c Hc. repeat (apply elem_of_cons in Hc as [->|Hc];
      [split; [reflexivity|apply (bool_decide_eq_false_1 (_ ∈ PUNCTUATION_TO_REMOVE));
                            vm_compute; reflexivity]|]).
    by apply not_elem_of_nil in Hc. }
  split; [exact Ht|]. exact (normalize_plain_word (λ t, t) [104; 105]%N Ht).
Defined.

(** ** The [GET_SYNONYMS] script *)

(** The words the script queries: the normalized tokens of the second
    tab-separated field of the question lines (not a comment, not blank,
    with a tab), that are not blank and are not one of the first two lines
    of the file. *)
Theorem words_of_spec (str_lower : text → text) (content : list text) (w : text) :
  w ∈ words_of str_lower content ↔
  (w ∉ ignoreSymbols content) ∧ py_strip w ≠ [] ∧
  ∃ line tok, line ∈ content ∧ is_question_line line = true ∧
    tok ∈ py_split_ws (default [] (py_split_on 9 line !! 1)) ∧
    w = normalize str_lower tok.
Proof.
  unfold words_of.
  rewrite remove_ignored_spec, elem_of_filter, elem_of_list_to_set, list_elem_of_fmap.
  split.
  - intros [[[Hs _] (tok & -> & Htok)] Hi].
    apply py_split_ws_join in Htok as (q & Hq & Htok).
    apply questions_spec in Hq as (line & Hl & Hql & ->).
    split; [done|]. split; [done|]. exists line, tok. done.
  - intros (Hi & Hs & line & tok & Hl & Hq & Htok & ->). split; [|done]. split.
    + split; [done|]. destruct (normalize str_lower tok); [done|simpl; lia].
    + exists tok. split; [done|]. apply py_split_ws_join.
      eexists. split; [apply questions_spec; eauto|done].
Qed.



(** One failed request (no connection, an HTTP error status, a body that
    is not JSON or holds a kept object without a word, ...) stops the
    script before it writes anything: with the error of a request, or
    with the [TypeError] of the join when the synonyms of a word met
    before are not all [str]; when every answered request gives [str]
    words, with the error of a request. *)
Theorem get_synonyms_script_request_failure (str_lower : text → text) (tso : text_set_order)
    (fetch : text → option response) (raw : text) (out_writable : bool) :
  (∃ w e, w ∈ words_of str_lower (readlines_t raw) ∧ get_synonyms fetch w 500 10 = inl e) →
  ∃ e', get_synonyms_script str_lower tso fetch (Some raw) out_writable = inl e' ∧
    ((∃ e'', e' = RequestFailed e'') ∨ e' = JoinTypeError) ∧
    ((∀ w vs, get_synonyms fetch w 500 10 = inr vs → py_strs vs ≠ None) →
     ∃ e'', e' = RequestFailed e'').
Proof.
  intros (w & e & Hw & He). unfold get_synonyms_script.
  destruct (synonym_lines fetch (tso (words_of str_lower (readlines_t raw))))
    as [e'|c] eqn:Hs.
  - exists e'. split; [done|]. split; [by apply synonym_lines_error in Hs|].
    intros Hstr. by apply synonym_lines_error_strs in Hs.
  - exfalso. apply synonym_lines_spec in Hs as (syns & Hf & _).
    apply (list_of_tset_elem tso), list_elem_of_lookup in Hw as [i Hi].
    destruct (Forall2_lookup_l _ _ _ _ _ Hf Hi) as (s & _ & Hs). congruence.
Qed.

Lemma get_synonyms_script_request_failure_witness :
  (∃ w e, w ∈ words_of (λ t, t) (readlines_t demo_questions) ∧
          get_synonyms (λ _, None) w 500 10 = inl e) ∧
  ∃ e', get_synonyms_script (λ t, t) text_set_elements (λ _, None) (Some demo_questions) true
          = inl e' ∧
    ((∃ e'', e' = RequestFailed e'') ∨ e' = JoinTypeError) ∧
    ((∀ w vs, get_synonyms (λ _, None) w 500 10 = inr vs → py_strs vs ≠ None) →
     ∃ e'', e' = RequestFailed e'').
Proof.
  assert (H : ∃ w e, w ∈ words_of (λ t, t) (readlines_t demo_questions) ∧
                     get_synonyms (λ _, None) w 500 10 = inl e).
  { exists demo_hello, ConnectionError. split; [|reflexivity].
    apply (bool_decide_eq_true_1 (demo_hello ∈ words_of (λ t, t) (readlines_t demo_questions))).
    vm_compute. reflexivity. }
  split; [exact H|]. exact (get_synonyms_script_request_failure _ _ _ _ _ H).
Defined.

(** ** The [GROUP_SYNONYMS] loop *)

(** The loop stops early only on a file name ending in [.csv] or [.tsv]
    whose file cannot be read, or can be read but not opened for writing:
    it never raises for a file extension, and never for a missing
    synonym. *)
Theorem group_all_raised (so : set_order) str_lower names dir printed e dir' p :
  group_all so str_lower names dir printed = GroupRaised e dir' p →
  ∃ n, n ∈ names ∧ csv_or_tsv n = true ∧
    ((e = ReadError ∧ file_contents dir n = None) ∨
     (e = WriteError ∧ is_Some (file_contents dir n) ∧ file_writable dir n = false)).
Proof. apply group_all_raised_inv. Qed.

Lemma group_all_raised_witness :
  group_all set_order_last ascii_str_lower [str "a.csv"] ∅ [] = GroupRaised ReadError ∅ [] ∧
  ∃ n, n ∈ [str "a.csv"] ∧ csv_or_tsv n = true ∧
    ((ReadError = ReadError ∧ file_contents ∅ n = None) ∨
     (ReadError = WriteError ∧ is_Some (file_contents ∅ n) ∧ file_writable ∅ n = false)).
Proof.
  assert (H : group_all set_order_last ascii_str_lower [str "a.csv"] ∅ [] =
                GroupRaised ReadError ∅ []) by (vm_compute; reflexivity).
  split; [exact H|]. exact (group_all_raised set_order_last _ _ _ _ _ _ _ H).
Defined.

(** When every [.csv] and [.tsv] file of the listing can be read and
    opened for writing, the loop goes through the whole listing and
    prints one line per file, in the order of the listing. *)
Theorem group_all_completes (so : set_order) str_lower names dir printed :
  (∀ n, n ∈ names → csv_or_tsv n = true →
     is_Some (file_contents dir n) ∧ file_writable dir n = true) →
  ∃ dir', group_all so str_lower names dir printed =
          GroupDone dir' (printed ++ map group_message names).
Proof.
  revert dir printed. induction names as [|a names IH]; intros dir printed Hall; cbn [group_all].
  { exists dir. by rewrite app_nil_r. }
  fold (csv_or_tsv a). destruct (csv_or_tsv a) eqn:Ha.
  - assert (Hm : group_message a = str "Synonyms in " ++ a ++ str " have been grouped")
      by (unfold group_message; by rewrite Ha).
    destruct (Hall a ltac:(left) Ha) as [[c Hc] Hw]. rewrite Hc, Hw.
    destruct (group_synonyms_csv_written so str_lower a c Ha) as [out ->].
    destruct (IH (<[a := mk_sfile (Some out) true]> dir) (printed ++ [group_message a]))
      as [dir' Hrun].
    + intros n Hn Hcn. destruct (decide (n = a)) as [->|Hne].
      * unfold file_contents, file_writable. rewrite lookup_insert_eq. simpl.
        split; [by eexists|done].
      * rewrite file_contents_insert, file_writable_insert by done.
        apply Hall; [by right|done].
    + exists dir'. rewrite <- app_assoc in Hrun. rewrite <- Hm. exact Hrun.
  - assert (Hm : group_message a =
                 a ++ str " is an invalid file extension. Only .csv and .tsv files are allowed")
      by (unfold group_message; by rewrite Ha).
    destruct (IH dir (printed ++ [group_message a])) as [dir' Hrun].
    + intros n Hn Hcn. apply Hall; [by right|done].
    + exists dir'. rewrite <- app_assoc in Hrun. rewrite <- Hm. exact Hrun.
Qed.

Lemma group_all_completes_witness :
  (∀ n, n ∈ demo_names → csv_or_tsv n = true →
     is_Some (file_contents demo_dir n) ∧ file_writable demo_dir n = true) ∧
  ∃ dir', group_all set_order_last ascii_str_lower demo_names demo_dir [] =
          GroupDone dir' ([] ++ map group_message demo_names).
Proof.
  assert (H : ∀ n, n ∈ demo_names → csv_or_tsv n = true →
                is_Some (file_contents demo_dir n) ∧ file_writable demo_dir n = true).
  { intros n Hn. repeat (apply elem_of_cons in Hn as [->|Hn];
      [vm_compute; first [intros _; split; [eexists; reflexivity|reflexivity]|discriminate]|]).
    by apply not_elem_of_nil in Hn. }
  split; [exact H|]. exact (group_all_completes set_order_last _ _ _ _ H).
Defined.

(** Whether the loop ends or raises, it changes no file outside the
    listing and no file whose name ends neither in [.csv] nor in [.tsv];
    it creates and deletes no such file. *)
Theorem group_all_untouched (so : set_order) str_lower names dir printed f :
  (f ∉ names ∨ csv_or_tsv f = false) →
  result_dir (group_all so str_lower names dir printed) !! f = dir !! f.
Proof. apply group_all_dir_inv. Qed.

Lemma group_all_untouched_witness :
  (str "b.txt" ∉ demo_names ∨ csv_or_tsv (str "b.txt") = false) ∧
  result_dir (group_all set_order_last ascii_str_lower demo_names demo_dir []) !! str "b.txt"
    = demo_dir !! str "b.txt".
Proof.
  assert (Hf : str "b.txt" ∉ demo_names ∨ csv_or_tsv (str "b.txt") = false)
    by (right; vm_compute; reflexivity).
  split; [exact Hf|]. exact (group_all_untouched set_order_last _ _ _ _ _ Hf).
Defined.

(** Each [.csv] and [.tsv] file of a listing without repetitions, when
    the loop ends without an exception, ends up holding what
    [group_synonyms] writes for its original content. *)
Theorem group_all_written (so : set_order) str_lower names dir printed dir' p n :
  NoDup names → group_all so str_lower names dir printed = GroupDone dir' p →
  n ∈ names → csv_or_tsv n = true →
  ∃ contents out, file_contents dir n = Some contents ∧
    group_synonyms so str_lower n (Some contents) (file_writable dir n) = Written out ∧
    file_contents dir' n = Some out.
Proof.
  revert dir printed. induction names as [|a names IH]; intros dir printed Hnd Hrun Hn Hc;
    [by apply not_elem_of_nil in Hn|].
  apply NoDup_cons in Hnd as [Ha_notin Hnd]. cbn [group_all] in Hrun.
  fold (csv_or_tsv a) in Hrun. destruct (csv_or_tsv a) eqn:Ha.
  - destruct (file_contents dir a) as [c|] eqn:Hd; [|cbn [group_synonyms] in Hrun; discriminate].
    destruct (file_writable dir a) eqn:Hw;
      [|rewrite group_synonyms_not_writable in Hrun by done; discriminate].
    destruct (group_synonyms_csv_written so str_lower a c Ha) as [out Hout]. rewrite Hout in Hrun.
    apply elem_of_cons in Hn as [->|Hn].
    + exists c, out. split; [done|]. split; [by rewrite Hw|].
      pose proof (group_all_dir_inv so str_lower names (<[a := mk_sfile (Some out) true]> dir)
                    (printed ++ [str "Synonyms in " ++ a ++ str " have been grouped"]) a
                    (or_introl Ha_notin)) as Hinv.
      rewrite Hrun in Hinv. simpl in Hinv. unfold file_contents.
      rewrite Hinv, lookup_insert_eq. reflexivity.
    + destruct (IH _ _ Hnd Hrun Hn Hc) as (c' & out' & Hd' & Hw' & Ho).
      assert (Hne : n ≠ a) by (intros ->; contradiction).
      rewrite file_contents_insert in Hd' by done.
      rewrite file_writable_insert in Hw' by done. eauto.
  - apply elem_of_cons in Hn as [->|Hn]; [congruence|].
    exact (IH _ _ Hnd Hrun Hn Hc).
Qed.

Lemma group_all_written_witness :
  NoDup demo_names ∧
  group_all set_order_last ascii_str_lower demo_names demo_dir [] =
    GroupDone demo_dir_after (map group_message demo_names) ∧
  str "a.csv" ∈ demo_names ∧ csv_or_tsv (str "a.csv") = true ∧
  ∃ contents out, file_contents demo_dir (str "a.csv") = Some contents ∧
    group_synonyms set_order_last ascii_str_lower (str "a.csv") (Some contents)
      (file_writable demo_dir (str "a.csv")) = Written out ∧
    file_contents demo_dir_after (str "a.csv") = Some out.
Proof.
  assert (Hnd : NoDup demo_names)
    by (apply (bool_decide_eq_true_1 (NoDup demo_names)); vm_compute; reflexivity).
  assert (H : group_all set_order_last ascii_str_lower demo_names demo_dir [] =
                GroupDone demo_dir_after (map group_message demo_names))
    by (vm_compute; reflexivity).
  assert (Hn : str "a.csv" ∈ demo_names) by left.
  assert (Hc : csv_or_tsv (str "a.csv") = true) by (vm_compute; reflexivity).
  split; [exact Hnd|]. split; [exact H|]. split; [exact Hn|]. split; [exact Hc|].
  exact (group_all_written set_order_last _ _ _ _ _ _ _ Hnd H Hn Hc).
Defined.

(** ** [group_synonyms] *)

(** The outcomes of [group_synonyms]: an unreadable file raises, a
    readable file with another extension raises for its extension, and a
    readable [.csv] or [.tsv] file is written when it can be opened for
    writing and raises otherwise: the run never stops on a missing
    synonym and never loops. *)
Theorem group_synonyms_outcomes (so : set_order) str_lower fname (file : option text)
    (writable : bool) :
  match file with
  | None => group_synonyms so str_lower fname file writable = Raised ReadError
  | Some contents =>
      if csv_or_tsv fname then
        (if writable then ∃ out, group_synonyms so str_lower fname file writable = Written out
         else group_synonyms so str_lower fname file writable = Raised WriteError)
      else group_synonyms so str_lower fname file writable = Raised (InvalidExtension fname)
  end.
Proof.
  destruct file as [contents|]; [|reflexivity].
  destruct (csv_or_tsv fname) eqn:Hc.
  - destruct writable; [by apply group_synonyms_csv_written|by apply group_synonyms_not_writable].
  - unfold group_synonyms, separator_of. unfold csv_or_tsv in Hc.
    apply orb_false_elim in Hc as [-> ->]. reflexivity.
Qed.

(** Every word that [group_synonyms] writes holds no separator and no
    line break, when [str.lower()] brings in no line break; and no
    upper-case ASCII letter, when [str.lower()] never gives one. *)
Theorem group_synonyms_written_words (so : set_order) str_lower fname file writable out :
  lower_keeps_line_ends str_lower →
  group_synonyms so str_lower fname file writable = Written out →
  ∃ sep F, separator_of fname = Some sep ∧ out = render sep F ∧
    ∀ l w c, l ∈ F → w ∈ l → c ∈ w →
      token_char sep c ∧ (lower_no_upper str_lower → ¬ (65 ≤ c ≤ 90)%N).
Proof.
  unfold group_synonyms. intros Hlow Hrun.
  destruct file as [contents|]; [|done].
  destruct (separator_of fname) as [sep|]; [|done].
  destruct (consolidate so _) as [F| |] eqn:E; try done.
  destruct writable; [|done].
  injection Hrun as <-. exists sep, F. split_and!; [done|done|].
  exact (consolidate_word_chars so str_lower sep contents F Hlow E).
Qed.

Lemma group_synonyms_written_words_witness :
  group_synonyms set_order_last ascii_str_lower (str "a.csv") (Some (str "X,y" ++ nl)) true
    = Written (str "x,y" ++ nl) ∧
  ∃ sep F, separator_of (str "a.csv") = Some sep ∧ str "x,y" ++ nl = render sep F ∧
    ∀ l w c, l ∈ F → w ∈ l → c ∈ w →
      token_char sep c ∧ (lower_no_upper ascii_str_lower → ¬ (65 ≤ c ≤ 90)%N).
Proof.
  assert (H : group_synonyms set_order_last ascii_str_lower (str "a.csv") (Some (str "X,y" ++ nl))
                true = Written (str "x,y" ++ nl)) by (vm_compute; reflexivity).
  split; [exact H|].
  exact (group_synonyms_written_words set_order_last _ _ _ _ _
           ascii_str_lower_keeps_line_ends H).
Defined.

(** The file that [group_synonyms] writes has no more lines than the file
    it read, when [str.lower()] brings in no line break. *)
Theorem group_synonyms_fewer_lines (so : set_order) str_lower fname file writable out :
  lower_keeps_line_ends str_lower →
  group_synonyms so str_lower fname file writable = Written out →
  ∃ contents, file = Some contents ∧ length (readlines_t out) ≤ length (readlines_t contents).
Proof.
  unfold group_synonyms. intros Hlow Hrun.
  destruct file as [contents|]; [|done].
  destruct (separator_of fname) as [sep|] eqn:Hsep; [|done].
  destruct (consolidate so _) as [F| |] eqn:E; try done.
  destruct writable; [|done].
  injection Hrun as <-. exists contents. split; [done|].
  destruct (separator_chars fname sep Hsep) as [H10 H13].
  pose proof (consolidate_word_chars so str_lower sep contents F Hlow E) as Hwords.
  rewrite readlines_render; [|done|done|].
  - rewrite length_map. apply while_changes_length in E.
    rewrite length_map in E. exact E.
  - intros l w Hl Hw. split; intros Hc;
      destruct (Hwords l w _ Hl Hw Hc) as [(_ & ? & ?) _]; done.
Qed.

Lemma group_synonyms_fewer_lines_witness :
  group_synonyms set_order_last ascii_str_lower (str "a.csv")
    (Some (str "x,y" ++ nl ++ str "y,z" ++ nl)) true = Written (str "x,y,z" ++ nl) ∧
  ∃ contents, Some (str "x,y" ++ nl ++ str "y,z" ++ nl) = Some contents ∧
    length (readlines_t (str "x,y,z" ++ nl)) ≤ length (readlines_t contents).
Proof.
  assert (H : group_synonyms set_order_last ascii_str_lower (str "a.csv")
                (Some (str "x,y" ++ nl ++ str "y,z" ++ nl)) true = Written (str "x,y,z" ++ nl))
    by (vm_compute; reflexivity).
  split; [exact H|].
  exact (group_synonyms_fewer_lines set_order_last _ _ _ _ _ ascii_str_lower_keeps_line_ends H).
Defined.
